(** * Chemfiles: token parser, TRR index and InChI codec

    A shallow embedding of the parts of chemfiles that the specification
    talks about:

    - [Parse]: [chemfiles/parse.hpp] ([convert_integer], [parse_integer],
      [tokens_iterator], [scan_impl], [scan]);
    - [TRR]: the random-access index of [TRRFormat] (declared in
      [chemfiles/formats/TRR.hpp]);
    - [InChI]: [InChIFormat] and its [IXAMolWrapper]
      ([get_atom], [create_bond], [create_stereo_tetrahedron], [read_next],
      [is_zero_dimensions], [write_next], [forward]).

    C++ exceptions are values of an error type, returned through [result];
    integers are [Z] with the wrap-around of the casts written out; doubles
    are rationals. *)

From Stdlib Require Import ZArith QArith Lqa Ascii String List Lia Bool.
From stdpp Require Import base tactics option list strings pretty gmap.

Local Open Scope Z_scope.

(** ** Errors and the error monad *)

(** [chemfiles::Error] values, one constructor per [error(...)] /
    [format_error(...)] call site of the embedded code.  [what] renders the
    message the way the [fmt] format string of the call site does. *)
Inductive Error : Type :=
  | CanNotConvert (input type : string)
      (* "can not convert '{}' to a {}" *)
  | OutOfRangeFor (input type : string)
      (* "{} is out of range for {}" *)
  | OutOfRangeThisType (value : Z)
      (* "{} is out of range for this type" *)
  | EmptyStringValue
      (* "tried to read a string, got an empty value" *)
  | TooFewValues (tried available : nat)
      (* "tried to read {} values, but there are only {}" *)
  | WhileReading (input : string) (cause : Error)
      (* "error while reading '{}': {}" *)
  | FormatError (message : string)
      (* format_error(...) *)
  | FileError (message : string)
      (* file_error(...) *).

Fixpoint what (e : Error) : string :=
  match e with
  | CanNotConvert input type =>
      "can not convert '" +:+ input +:+ "' to a " +:+ type
  | OutOfRangeFor input type =>
      input +:+ " is out of range for " +:+ type
  | OutOfRangeThisType value =>
      pretty value +:+ " is out of range for this type"
  | EmptyStringValue => "tried to read a string, got an empty value"
  | TooFewValues tried available =>
      "tried to read " +:+ pretty tried +:+ " values, but there are only "
        +:+ pretty available
  | WhileReading input cause =>
      "error while reading '" +:+ input +:+ "': " +:+ what cause
  | FormatError message => message
  | FileError message => message
  end.

(** The outcome of a call: a value, or the exception it threw.  [E] is the
    type of the exceptions the call can throw. *)
Inductive outcome (E A : Type) : Type :=
  | Ok (a : A)
  | Err (e : E).
Arguments Ok {E A} a.
Arguments Err {E A} e.

(** Calls that throw [chemfiles::Error] only. *)
Abbreviation result := (outcome Error).

(** A [throw] leaves the rest of the computation out: [x ← r; k] is the
    sequencing of two statements, either of which may throw. *)
Global Instance outcome_ret {E} : MRet (outcome E) := λ A a, Ok a.
Global Instance outcome_bind {E} : MBind (outcome E) := λ A B k r,
  match r with
  | Ok a => k a
  | Err e => Err e
  end.
Global Instance outcome_fmap {E} : FMap (outcome E) := λ A B f r,
  match r with
  | Ok a => Ok (f a)
  | Err e => Err e
  end.

Definition is_ok {E A} (r : outcome E A) : bool :=
  match r with Ok _ => true | Err _ => false end.

(** The line feed character, as a string. *)
Definition newline : string := String (ascii_of_nat 10) EmptyString.

(** [s] occurs in [t] as a contiguous substring. *)
Definition occurs_in (s t : string) : Prop :=
  exists pre post, t = pre +:+ s +:+ post.

(** Executable version of [occurs_in] ([std::string::find(...) != npos]). *)
Fixpoint contains (s t : string) : bool :=
  String.prefix s t
  || match t with
     | EmptyString => false
     | String _ t' => contains s t'
     end.

(** ** chemfiles/parse.hpp *)
Module Parse.

(** An integer type [T] the template is instantiated at: its signedness and
    [sizeof(T)] in bytes. *)
Record int_type : Type := IntType { is_signed : bool; sizeof : Z }.

Definition int8_t := IntType true 1.
Definition int16_t := IntType true 2.
Definition int32_t := IntType true 4.
Definition int64_t := IntType true 8.
Definition uint8_t := IntType false 1.
Definition uint16_t := IntType false 2.
Definition uint32_t := IntType false 4.
Definition uint64_t := IntType false 8.

Definition bits (T : int_type) : Z := 8 * sizeof T.

(** [std::numeric_limits<T>::max()] and [::min()]. *)
Definition numeric_limits_max (T : int_type) : Z :=
  if is_signed T then 2 ^ (bits T - 1) - 1 else 2 ^ bits T - 1.

Definition numeric_limits_min (T : int_type) : Z :=
  if is_signed T then - 2 ^ (bits T - 1) else 0.

Definition in_range (T : int_type) (v : Z) : Prop :=
  numeric_limits_min T <= v <= numeric_limits_max T.

(** [static_cast<T>(v)]: the value modulo [2^bits], read back in [T]. *)
Definition static_cast (T : int_type) (v : Z) : Z :=
  if is_signed T
  then (v + 2 ^ (bits T - 1)) mod 2 ^ bits T - 2 ^ (bits T - 1)
  else v mod 2 ^ bits T.

(** [detail::convert_integer<Small, Large>(value)] *)
Definition convert_integer (Small Large : int_type) (value : Z) : result Z :=
  if sizeof Small <? sizeof Large then
    if value >? static_cast Large (numeric_limits_max Small)
    then Err (OutOfRangeThisType value)
    else Ok (static_cast Small value)
  else Ok (static_cast Small value).

(** *** The 64-bit specialisations *)

Definition digit_value (c : ascii) : option Z :=
  let n := Z.of_nat (nat_of_ascii c) in
  if (48 <=? n) && (n <=? 57) then Some (n - 48) else None.

(** Value of a string of ASCII digits, [None] on any other character. *)
Fixpoint parse_digits (acc : Z) (s : string) : option Z :=
  match s with
  | EmptyString => Some acc
  | String c s' =>
      match digit_value c with
      | Some d => parse_digits (10 * acc + d) s'
      | None => None
      end
  end.

(** The result of [detail::check_parse_errors(input, end, type)] for a
    conversion that consumed the whole of [digits] or stopped early
    ([None]) and produced [value]. *)
Definition check_parse_errors (input : string) (type : string)
    (T : int_type) (value : option Z) : result Z :=
  match value with
  | None => Err (CanNotConvert input type)
  | Some v =>
      if (numeric_limits_min T <=? v) && (v <=? numeric_limits_max T)
      then Ok v
      else Err (OutOfRangeFor input type)
  end.

(** Modelled from the spec: the specialisation [parse<int64_t>] is declared
    in parse.hpp and defined in parse.cpp, which is not part of the sources.
    Its documentation there: plain decimal numbers following the
    [(+|-)?\d+] pattern; it throws if the input is empty, the number invalid
    or would overflow [int64_t], or if there is additional data after the
    value.  The name of the type in the message is the C++ type name. *)
Definition parse_int64 (input : string) : result Z :=
  match input with
  | EmptyString => Err (CanNotConvert input "int64_t")
  | String c rest =>
      let '(negative, digits) :=
        if Ascii.eqb c "-"%char then (true, rest)
        else if Ascii.eqb c "+"%char then (false, rest)
        else (false, input) in
      match digits with
      | EmptyString => Err (CanNotConvert input "int64_t")
      | _ =>
          check_parse_errors input "int64_t" int64_t
            ((fun v => if negative : bool then - v else v)
               <$> parse_digits 0 digits)
      end
  end.

(** Modelled from the spec: the specialisation [parse<uint64_t>], declared
    in parse.hpp and defined in parse.cpp (not part of the sources).  Its
    documentation: numbers following the [+?\d+] pattern, same failures as
    [parse<int64_t>] with [uint64_t] as the range. *)
Definition parse_uint64 (input : string) : result Z :=
  match input with
  | EmptyString => Err (CanNotConvert input "uint64_t")
  | String c rest =>
      let digits := if Ascii.eqb c "+"%char then rest else input in
      match digits with
      | EmptyString => Err (CanNotConvert input "uint64_t")
      | _ =>
          check_parse_errors input "uint64_t" uint64_t
            (parse_digits 0 digits)
      end
  end.

(** [detail::parse_integer<T>(input)]: the overload for signed types goes
    through [parse<int64_t>], the one for unsigned types through
    [parse<uint64_t>]. *)
Definition parse_integer (T : int_type) (input : string) : result Z :=
  if is_signed T then
    value ← parse_int64 input;
    convert_integer T int64_t value
  else
    value ← parse_uint64 input;
    convert_integer T uint64_t value.

(** [parse<std::string>(input)] *)
Definition parse_string (input : string) : result string :=
  match input with
  | EmptyString => Err EmptyStringValue
  | _ => Ok input
  end.

(** *** string_view *)

Fixpoint string_drop (n : nat) (s : string) : string :=
  match n, s with
  | S n', String _ s' => string_drop n' s'
  | _, _ => s
  end.

Fixpoint string_take (n : nat) (s : string) : string :=
  match n, s with
  | S n', String c s' => String c (string_take n' s')
  | _, _ => EmptyString
  end.

(** A [string_view]: the address [data] of its first character and the
    characters it spans. *)
Record string_view : Type := StringView { data : nat; chars : string }.

Definition remove_prefix (n : nat) (v : string_view) : string_view :=
  {| data := (data v + n)%nat; chars := string_drop n (chars v) |}.

Definition substr (pos n : nat) (v : string_view) : string :=
  string_take n (string_drop pos (chars v)).

(** Modelled from the spec: [is_whitespace] comes from chemfiles/utils.hpp,
    which is not part of the sources; fields are separated by runs of
    whitespace, the six whitespace characters of ASCII. *)
Definition is_whitespace (c : ascii) : bool :=
  let n := nat_of_ascii c in
  (n =? 32)%nat || ((9 <=? n)%nat && (n <=? 13)%nat).

Definition not_whitespace (c : ascii) : bool := negb (is_whitespace c).

(** Number of leading characters of [s] that satisfy [p]: the distance the
    pointer loops [while (it != end && p( *it)) it++] travel. *)
Fixpoint leading (p : ascii -> bool) (s : string) : nat :=
  match s with
  | EmptyString => O
  | String c s' => if p c then S (leading p s') else O
  end.

(** *** detail::tokens_iterator *)

Record tokens_iterator : Type := TokensIterator {
  input_ : string_view;
  initial_start_ : nat;
  count_ : nat;
}.

(** The constructor [tokens_iterator(string_view input)]; [count_ = 0]. *)
Definition tokens_iterator_new (input : string_view) : tokens_iterator :=
  {| input_ := input; initial_start_ := data input; count_ := O |}.

Definition read_count (it : tokens_iterator) : nat :=
  (data (input_ it) - initial_start_ it)%nat.

(** [tokens_iterator::next()]: the next token and the iterator after it. *)
Definition next (it : tokens_iterator) : result (string * tokens_iterator) :=
  (* skip whitespace *)
  let skipped := leading is_whitespace (chars (input_ it)) in
  let input1 := remove_prefix skipped (input_ it) in
  (* find next whitespace *)
  let size := leading not_whitespace (chars input1) in
  if (size =? 0)%nat then
    Err (TooFewValues (count_ it + 1) (count_ it))
  else
    Ok (substr 0 size input1,
        {| input_ := remove_prefix size input1;
           initial_start_ := initial_start_ it;
           count_ := (count_ it + 1)%nat |}).

(** *** detail::scan_impl and scan *)

Section Scan.
(** The output slots [Args&...] of a call: each slot has its [parse<T>].
    [V] is the type of the values the slots receive. *)
Context {V : Type}.

(** [detail::scan_impl(input, first, tail...)]: both overloads.  The
    values assigned to the slots, in order, and the iterator after the
    last token. *)
Fixpoint scan_impl (input : tokens_iterator)
    (args : list (string -> result V)) : result (list V * tokens_iterator) :=
  match args with
  | [] => Ok ([], input) (* no overload: a call has at least one slot *)
  | parse_first :: tail =>
      '(token, input') ← next input;
      first ← parse_first token;
      '(values, input'') ← scan_impl input' tail;
      Ok (first :: values, input'')
  end.

(** [scan(input, args...)]: the values of the slots and the number of
    characters read. *)
Definition scan (input : string) (args : list (string -> result V))
    : result (list V * nat) :=
  let iterator := tokens_iterator_new (StringView 0 input) in
  match scan_impl iterator args with
  | Err e => Err (WhileReading input e)
  | Ok (values, iterator') => Ok (values, read_count iterator')
  end.
End Scan.

(** The values of the slots of the calls below. *)
Inductive value : Type :=
  | VInt (z : Z)
  | VString (s : string).

(** A slot of an integer type [T], and a [std::string] slot. *)
Definition int_slot (T : int_type) (token : string) : result value :=
  VInt <$> parse_integer T token.

Definition string_slot (token : string) : result value :=
  VString <$> parse_string token.

(** The three slots of [scan("1 2", a, b, c)]. *)
Definition three_int_slots : list (string -> result value) :=
  [int_slot int64_t; int_slot int64_t; int_slot int64_t].

(** The whitespace-separated fields of a line, by recursion on the line: a
    character that is not whitespace starts a field, or extends the field
    that starts right after it. *)
Definition starts_field (s : string) : bool :=
  match s with
  | EmptyString => false
  | String c _ => negb (is_whitespace c)
  end.

Fixpoint fields (s : string) : list string :=
  match s with
  | EmptyString => []
  | String c s' =>
      if is_whitespace c then fields s'
      else if starts_field s' then
        match fields s' with
        | t :: ts => String c t :: ts
        | [] => [String c EmptyString]
        end
      else String c EmptyString :: fields s'
  end.

(** Every character of [s] satisfies [p]. *)
Fixpoint all_chars (p : ascii -> bool) (s : string) : bool :=
  match s with
  | EmptyString => true
  | String c s' => p c && all_chars p s'
  end.

End Parse.

(** ** chemfiles/formats/TRR.hpp *)
Module TRR.

(** [TRRFormat::FrameHeader] *)
Record FrameHeader : Type := {
  use_double : bool; (* Double precision? *)
  ir_size : Z;       (* Backward compatibility *)
  e_size : Z;        (* Backward compatibility *)
  box_size : Z;      (* Size in Bytes, non zero if a box is present *)
  vir_size : Z;      (* Backward compatibility *)
  pres_size : Z;     (* Backward compatibility *)
  top_size : Z;      (* Backward compatibility *)
  sym_size : Z;      (* Backward compatibility *)
  x_size : Z;        (* Size in Bytes, non zero if coordinates are present *)
  v_size : Z;        (* Size in Bytes, non zero if velocities are present *)
  f_size : Z;        (* Size in Bytes, non zero if forces are present *)
  natoms : Z;        (* The total number of atoms *)
  step : Z;          (* Current step number *)
  nre : Z;           (* Backward compatibility *)
  time : Q;          (* Current time (float or double) *)
  lambda : Q;        (* Current value of lambda (float or double) *)
}.

(** Modelled from the spec: the encoded size of a frame header.  The layout
    of the header is outside the specification; the index only needs the
    number of bytes a header takes, which is never zero. *)
Class HeaderLayout : Type := {
  header_bytes : FrameHeader -> Z;
  header_bytes_pos : forall h, 0 < header_bytes h;
}.

(** Modelled from the spec: the sum of the section sizes a header declares
    (the persisted layout of section 6: the payload of a record is as long
    as the sum of the section sizes of its header). *)
Definition declared_payload_bytes (h : FrameHeader) : Z :=
  ir_size h + e_size h + box_size h + vir_size h + pres_size h
  + top_size h + sym_size h + x_size h + v_size h + f_size h.

(** Modelled from the spec: the persisted layout, a sequence of
    (header, payload) records; the payload is a list of bytes. *)
Record record : Type := Record_ {
  header : FrameHeader;
  payload : list Z;
}.

(** The frame a read produces: what the header says and the payload. *)
Record Frame : Type := {
  frame_natoms : Z;
  frame_step : Z;
  frame_time : Q;
  frame_payload : list Z;
}.

(** Modelled from the spec: [XDRFile], of chemfiles/files/XDRFile.hpp, is
    not part of the sources.  The records of the stream and the current
    position in bytes. *)
Record XDRFile : Type := {
  records : list record;
  position : Z;
}.

(** The members of [TRRFormat] declared in TRR.hpp.

    Modelled from the spec: [index_end_] is the last known offset of section
    4.4, where the index scan stopped, and [scan_log] lists the byte ranges
    [(first, past the end)] the index scan went over, in the order it did:
    with it the number of times a byte was scanned can be stated. *)
Record TRRFormat : Type := {
  file_ : XDRFile;               (* Associated XDR file *)
  frame_offsets_ : list Z;       (* Offsets within file for fast indexing *)
  step_ : nat;                   (* The next step to read *)
  natoms_ : Z;                   (* The number of atoms in the trajectory *)
  index_end_ : Z;
  scan_log : list (Z * Z);
}.

(** The byte [b] lies in a range of the log. *)
Definition covers (b : Z) (range : Z * Z) : Prop :=
  let '(first, stop) := range in first <= b < stop.

Global Instance covers_dec b range : Decision (covers b range).
Proof. destruct range. simpl. apply _. Defined.

Section Codec.
Context `{HeaderLayout}.

(** Number of bytes a record takes in the stream. *)
Definition record_bytes (r : record) : Z :=
  header_bytes (header r) + Z.of_nat (length (payload r)).

(** The record that starts at byte [offset] of the stream, if one does. *)
Fixpoint record_at (rs : list record) (offset : Z) : option record :=
  match rs with
  | [] => None
  | r :: rs' =>
      if offset =? 0 then Some r
      else if offset <? record_bytes r then None
      else record_at rs' (offset - record_bytes r)
  end.

(** Modelled from the spec: the constructor, for reading.  The codec
    starts unindexed: only the current stream position is known. *)
Definition open (rs : list record) : TRRFormat :=
  {| file_ := {| records := rs; position := 0 |};
     frame_offsets_ := [];
     step_ := O;
     natoms_ := 0;
     index_end_ := 0;
     scan_log := [] |}.

(** Modelled from the spec: one step of [determine_frame_offsets] (only
    declared in TRR.hpp).  From the last known offset it parses one frame
    header, records the offset of the frame start in the offset table and
    skips the body without decoding it.  The atom count of the first
    header fixes [natoms_].  [None] at the end of the stream. *)
Definition index_frame (t : TRRFormat) : option TRRFormat :=
  let start := index_end_ t in
  match record_at (records (file_ t)) start with
  | None => None
  | Some r =>
      let stop := start + record_bytes r in
      Some {| file_ := {| records := records (file_ t); position := stop |};
              frame_offsets_ := frame_offsets_ t ++ [start];
              step_ := step_ t;
              natoms_ := match frame_offsets_ t with
                         | [] => natoms (header r)
                         | _ => natoms_ t
                         end;
              index_end_ := stop;
              scan_log := scan_log t ++ [(start, stop)] |}
  end.

(** Modelled from the spec: [determine_frame_offsets], indexing at most
    [todo] more frames and stopping at the end of the stream. *)
Fixpoint index_frames (todo : nat) (t : TRRFormat) : TRRFormat :=
  match todo with
  | O => t
  | S todo' =>
      match index_frame t with
      | None => t
      | Some t' => index_frames todo' t'
      end
  end.

(** Indexing resumes only when [step] is beyond the frames seen so far. *)
Definition index_until (step : nat) (t : TRRFormat) : TRRFormat :=
  index_frames (S step - length (frame_offsets_ t)) t.

(** Indexing up to the end of the stream: a stream of [n] records has at
    most [n] frames left to index. *)
Definition index_all (t : TRRFormat) : TRRFormat :=
  index_frames (length (records (file_ t))) t.

Definition seek (offset : Z) (t : TRRFormat) : TRRFormat :=
  {| file_ := {| records := records (file_ t); position := offset |};
     frame_offsets_ := frame_offsets_ t;
     step_ := step_ t;
     natoms_ := natoms_ t;
     index_end_ := index_end_ t;
     scan_log := scan_log t |}.

Definition set_step (step : nat) (t : TRRFormat) : TRRFormat :=
  {| file_ := file_ t;
     frame_offsets_ := frame_offsets_ t;
     step_ := step;
     natoms_ := natoms_ t;
     index_end_ := index_end_ t;
     scan_log := scan_log t |}.

(** Modelled from the spec: decoding the frame at the current position.
    A header whose atom count is not [natoms_] is a hard error, and so is
    a payload whose length disagrees with the sizes of its header. *)
Definition read_frame (t : TRRFormat) : result Frame * TRRFormat :=
  match record_at (records (file_ t)) (position (file_ t)) with
  | None => (Err (FormatError "can not read a frame header"), t)
  | Some r =>
      let h := header r in
      if negb (natoms h =? natoms_ t) then
        (Err (FormatError
                "inconsistent number of atoms in the trajectory"), t)
      else if negb (declared_payload_bytes h
                      =? Z.of_nat (length (payload r))) then
        (Err (FormatError "frame payload does not match its header"), t)
      else
        (Ok {| frame_natoms := natoms h;
               frame_step := step h;
               frame_time := time h;
               frame_payload := payload r |},
         set_step (S (step_ t))
           (seek (position (file_ t) + record_bytes r) t))
  end.

(** Modelled from the spec: [read_step(step, frame)]. *)
Definition read_step (step : nat) (t : TRRFormat)
    : result Frame * TRRFormat :=
  let t := index_until step t in
  match frame_offsets_ t !! step with
  | None => (Err (FileError "step out of the bounds of the trajectory"), t)
  | Some offset => read_frame (set_step step (seek offset t))
  end.

(** Modelled from the spec: [read(frame)], the next frame. *)
Definition read (t : TRRFormat) : result Frame * TRRFormat :=
  read_step (step_ t) t.

(** Modelled from the spec: [nsteps()]. *)
Definition nsteps (t : TRRFormat) : nat * TRRFormat :=
  let t := index_all t in
  (length (frame_offsets_ t), t).

(** The calls of a client, and the codec after a sequence of them. *)
Inductive call : Type :=
  | ReadStep (step : nat)
  | Read
  | NSteps.

Definition after_call (c : call) (t : TRRFormat) : TRRFormat :=
  match c with
  | ReadStep step => (read_step step t).2
  | Read => (read t).2
  | NSteps => (nsteps t).2
  end.

Definition after_calls (cs : list call) (t : TRRFormat) : TRRFormat :=
  foldl (fun t c => after_call c t) t cs.

(** The number of times the index scan went over byte [b]. *)
Definition times_scanned (b : Z) (t : TRRFormat) : nat :=
  length (filter (covers b) (scan_log t)).
End Codec.

(** The byte offsets at which the records of a stream start. *)
Section Layout.
Context `{HeaderLayout}.

Fixpoint offsets_from (base : Z) (rs : list record) : list Z :=
  match rs with
  | [] => []
  | r :: rs' => base :: offsets_from (base + record_bytes r) rs'
  end.

Fixpoint ranges_from (base : Z) (rs : list record) : list (Z * Z) :=
  match rs with
  | [] => []
  | r :: rs' =>
      (base, base + record_bytes r)
        :: ranges_from (base + record_bytes r) rs'
  end.

Definition stream_bytes (rs : list record) : Z :=
  foldr (fun r n => record_bytes r + n) 0 rs.

(** The index of [t] covers the first [k] records of the stream [rs]. *)
Record indexed (rs : list record) (k : nat) (t : TRRFormat) : Prop := {
  indexed_records : records (file_ t) = rs;
  indexed_bound : (k <= length rs)%nat;
  indexed_offsets : frame_offsets_ t = offsets_from 0 (take k rs);
  indexed_end : index_end_ t = stream_bytes (take k rs);
  indexed_log : scan_log t = ranges_from 0 (take k rs);
  indexed_natoms :
    forall r0, (0 < k)%nat -> rs !! O = Some r0 ->
               natoms_ t = natoms (header r0);
}.
End Layout.

(** The header layout of a GROMACS trajectory: 84 bytes in single
    precision, 92 in double precision. *)
#[export] Instance gromacs_layout : HeaderLayout := {|
  header_bytes h := if use_double h then 92 else 84;
  header_bytes_pos h :=
    match use_double h as b return 0 < (if b then 92 else 84) with
    | true => eq_refl
    | false => eq_refl
    end;
|}.

(** A stream of two frames, of 3 and 4 atoms, with no payload. *)
Definition header_of (n : Z) : FrameHeader :=
  {| use_double := false; ir_size := 0; e_size := 0; box_size := 0;
     vir_size := 0; pres_size := 0; top_size := 0; sym_size := 0;
     x_size := 0; v_size := 0; f_size := 0; natoms := n; step := 0;
     nre := 0; time := 0; lambda := 0 |}.

Definition two_frames : list record :=
  [Record_ (header_of 3) []; Record_ (header_of 4) []].

End TRR.

(** ** chemfiles/formats/InChI.cpp *)
Module InChI.

(** *** The toolkit boundary (inchi_api.h) *)

Inductive IXA_STATUS : Type :=
  | IXA_STATUS_SUCCESS
  | IXA_STATUS_WARNING
  | IXA_STATUS_ERROR.

Inductive IXA_BOND_TYPE : Type :=
  | IXA_BOND_TYPE_SINGLE
  | IXA_BOND_TYPE_DOUBLE
  | IXA_BOND_TYPE_TRIPLE
  | IXA_BOND_TYPE_AROMATIC.

Inductive IXA_STEREO_TOPOLOGY : Type :=
  | IXA_STEREO_TOPOLOGY_INVALID
  | IXA_STEREO_TOPOLOGY_TETRAHEDRON
  | IXA_STEREO_TOPOLOGY_RECTANGLE
  | IXA_STEREO_TOPOLOGY_ANTIRECTANGLE.

Inductive IXA_STEREO_PARITY : Type :=
  | IXA_STEREO_PARITY_NONE
  | IXA_STEREO_PARITY_ODD
  | IXA_STEREO_PARITY_EVEN
  | IXA_STEREO_PARITY_UNKNOWN.

Inductive IXA_ATOM_RADICAL : Type :=
  | IXA_ATOM_RADICAL_NONE
  | IXA_ATOM_RADICAL_SINGLET
  | IXA_ATOM_RADICAL_DOUBLET
  | IXA_ATOM_RADICAL_TRIPLET.

Global Instance IXA_ATOM_RADICAL_eq_dec : EqDecision IXA_ATOM_RADICAL.
Proof. solve_decision. Defined.

(** The integer an [IXA_ATOM_RADICAL] converts to. *)
Definition radical_code (r : IXA_ATOM_RADICAL) : Z :=
  match r with
  | IXA_ATOM_RADICAL_NONE => 0
  | IXA_ATOM_RADICAL_SINGLET => 1
  | IXA_ATOM_RADICAL_DOUBLET => 2
  | IXA_ATOM_RADICAL_TRIPLET => 3
  end.

(** The mass the toolkit reports for an atom of natural isotopic mass. *)
Definition IXA_ATOM_NATURAL_MASS : Z := 0.

(** An atom of the toolkit's molecule, or the marker of an implicit
    hydrogen. *)
Inductive IXA_ATOMID : Type :=
  | AtomId (index : nat)
  | IXA_ATOMID_IMPLICIT_H.

(** *** The molecular graph model *)

Definition Vector3D : Type := Q * Q * Q.

(** [Property]: a bool, a double, a string or a vector. *)
Inductive Property : Type :=
  | BOOL (b : bool)
  | DOUBLE (d : Q)
  | STRING (s : string)
  | VECTOR3D (v : Vector3D).

(** [Bond::BondOrder] *)
Inductive BondOrder : Type :=
  | UNKNOWN
  | SINGLE
  | DOUBLE_
  | TRIPLE
  | AMIDE
  | AROMATIC
  | DATIVE_L
  | DATIVE_R
  | UP
  | DOWN
  | WEDGE_UP
  | WEDGE_DOWN
  | WEDGE_EITHER
  | EVEN_RECTANGLE
  | ODD_RECTANGLE.

(** [Bond]: the indexes of the two atoms. *)
Definition Bond : Type := nat * nat.

Record Atom : Type := {
  name : string;
  mass : Q;
  charge : Q;
  properties : gmap string Property;
}.

(** Modelled from the spec: the periodic table (periodic_table.hpp is not
    part of the sources): the natural isotopic mass of an element, which a
    new atom takes, and its atomic number, if it has one. *)
Class PeriodicTable : Type := {
  natural_mass : string -> Q;
  element_number : string -> option Z;
}.

(** Modelled from the spec: [Frame], an ordered sequence of atoms, a
    position for each, and the bonds of its topology with their orders
    (Frame.hpp is not part of the sources).  [distance] is
    [Frame::distance], which also depends on the unit cell. *)
Record Frame : Type := {
  atoms : list Atom;
  positions : list Vector3D;
  bonds : list (Bond * BondOrder);
  distance : nat -> nat -> Q;
}.

Definition size (frame : Frame) : nat := length (atoms frame).

(** The invariants of a frame (section 3): as many positions as atoms, the
    atoms of a bond are atoms of the frame, no two bonds on the same pair
    of atoms. *)
Definition well_formed (frame : Frame) : Prop :=
  length (positions frame) = length (atoms frame)
  /\ Forall (fun b : Bond => (b.1 < size frame)%nat /\ (b.2 < size frame)%nat)
       (fst <$> bonds frame)
  /\ NoDup (fst <$> bonds frame).

Section Model.
Context `{PeriodicTable}.

(** Modelled from the spec: the constructor [Atom(name)] and the setters
    of [Atom] (Atom.hpp is not part of the sources).  A new atom has the
    natural mass of its element, no charge and no property. *)
Definition Atom_new (element : string) : Atom :=
  {| name := element; mass := natural_mass element; charge := 0;
     properties := ∅ |}.

Definition set_mass (m : Q) (a : Atom) : Atom :=
  {| name := name a; mass := m; charge := charge a;
     properties := properties a |}.

Definition set_charge (c : Q) (a : Atom) : Atom :=
  {| name := name a; mass := mass a; charge := c;
     properties := properties a |}.

Definition set (key : string) (value : Property) (a : Atom) : Atom :=
  {| name := name a; mass := mass a; charge := charge a;
     properties := <[key := value]> (properties a) |}.

(** [atom.get<Property::STRING>(key)] *)
Definition get_string (key : string) (a : Atom) : option string :=
  match properties a !! key with
  | Some (STRING s) => Some s
  | _ => None
  end.

Definition atomic_number (a : Atom) : option Z := element_number (name a).

Definition add_atom (a : Atom) (p : Vector3D) (frame : Frame) : Frame :=
  {| atoms := atoms frame ++ [a]; positions := positions frame ++ [p];
     bonds := bonds frame; distance := distance frame |}.

Definition same_bond (b1 b2 : Bond) : bool :=
  ((b1.1 =? b2.1)%nat && (b1.2 =? b2.2)%nat)
  || ((b1.1 =? b2.2)%nat && (b1.2 =? b2.1)%nat).

Definition remove_bond (i j : nat) (frame : Frame) : Frame :=
  {| atoms := atoms frame; positions := positions frame;
     bonds := filter (fun b => negb (same_bond (i, j) b.1)) (bonds frame);
     distance := distance frame |}.

(** Adding a bond where one exists leaves the bond that exists. *)
Definition add_bond (i j : nat) (order : BondOrder) (frame : Frame)
    : Frame :=
  if existsb (fun b => same_bond (i, j) b.1) (bonds frame) then frame
  else {| atoms := atoms frame; positions := positions frame;
          bonds := bonds frame ++ [((i, j), order)];
          distance := distance frame |}.

(** [frame[index].set(key, value)] *)
Definition set_atom_property (index : nat) (key : string)
    (value : Property) (frame : Frame) : Frame :=
  {| atoms := alter (set key value) index (atoms frame);
     positions := positions frame; bonds := bonds frame;
     distance := distance frame |}.
End Model.

(** *** What the toolkit reports and what it is asked *)

(** What the toolkit reports for an atom of the molecule it parsed: the
    values of [IXA_MOL_GetAtomElement], [..Mass], [..Charge], [..Radical],
    [..Hydrogens] (by mass number) and [..X], [..Y], [..Z]. *)
Record ixa_atom : Type := {
  atom_element : string;
  atom_mass : Z;
  atom_charge : Z;
  atom_radical : IXA_ATOM_RADICAL;
  atom_hydrogens : Z -> Z;
  atom_position : Vector3D;
}.

(** A bond of the molecule: the indexes of its atoms and its type. *)
Record ixa_bond : Type := {
  bond_atoms : Bond;
  bond_type : IXA_BOND_TYPE;
}.

(** A stereocenter of the molecule: the index of its central atom, the
    atoms of its central bond. *)
Record ixa_stereo : Type := {
  stereo_topology : IXA_STEREO_TOPOLOGY;
  stereo_parity : IXA_STEREO_PARITY;
  stereo_central_atom : nat;
  stereo_central_bond : Bond;
}.

Record IXA_MOL : Type := {
  mol_atoms : list ixa_atom;
  mol_bonds : list ixa_bond;
  mol_stereos : list ixa_stereo;
}.

(** A call of [warning(context, message)]. *)
Record warning : Type := Warning { context : string; message : string }.

(** What [write_next] can throw: a [chemfiles::Error], the
    [std::out_of_range] of [string_view::substr], or a failed [assert]. *)
Inductive exception : Type :=
  | ChemfilesError (e : Error)
  | StdOutOfRange
  | AssertionFailure.

(** The methods of [IXAMolWrapper] the writer calls, with what they pass
    to the toolkit. *)
Inductive ixa_call : Type :=
  | IXA_CreateAtom (atomic_number : option Z) (position : Vector3D)
      (mass charge : option Z)
  | IXA_CreateBond (atom1 atom2 : nat) (type : option IXA_BOND_TYPE)
  | IXA_CreateStereoTetrahedron (center : IXA_ATOMID)
      (v1 v2 v3 v4 : IXA_ATOMID) (parity : IXA_STEREO_PARITY).

(** Modelled from the spec: the toolkit is an external collaborator, known
    at its interface (section 6): after a call its status channel holds
    zero or more (severity, message) pairs; a builder gives the identifier
    and its auxiliary information for the molecule built by the calls so
    far; an atom the writer gave no atomic number has the toolkit's
    default.  Reading an identifier gives a status and a molecule. *)
Class Toolkit : Type := {
  ixa_read_inchi : string -> list (IXA_STATUS * string) * IXA_MOL;
  ixa_status : ixa_call -> list (IXA_STATUS * string);
  ixa_get_strings : list ixa_call -> string * string;
  ixa_default_atomic_number : Z;
}.

(** What a write leaves behind, in order. *)
Inductive event : Type :=
  | Called (c : ixa_call)
  | Warned (w : warning)
  | Printed (line : string).

(** One step of the writer: a call of a wrapper method (which ends with
    [check_for_errors]), a warning, or a [throw]. *)
Inductive action : Type :=
  | Call (c : ixa_call)
  | Warn (w : warning)
  | Throw (x : exception).

(** [IXAMolWrapper::check_for_errors()] on a status: the warnings it
    forwards, and the error it throws if the status holds one. *)
Definition check_for_errors (status : list (IXA_STATUS * string))
    : list warning * result () :=
  let errors :=
    foldl (fun errors entry =>
             match entry.1 with
             | IXA_STATUS_ERROR => errors +:+ entry.2 +:+ newline
             | _ => errors
             end) EmptyString status in
  let warnings :=
    omap (fun entry =>
            match entry.1 with
            | IXA_STATUS_WARNING =>
                Some (Warning "InChI IXA: " ("'" +:+ entry.2 +:+ "'"))
            | _ => None
            end) status in
  (warnings,
   if (String.length errors =? 0)%nat then Ok ()
   else Err (FormatError ("problem in InChI IXA: '" +:+ errors +:+ "'"))).


(** *** The text file *)

(** Modelled from the spec: [TextFile] (File.hpp is not part of the
    sources): the characters not read yet, the position of the first of
    them, and the end-of-file flag, which a [readline] that reaches the end
    of the stream sets.  [readline()] returns the next line without its
    terminator. *)
Record TextFile : Type := {
  unread : string;
  tellpos : nat;
  eof : bool;
}.

(** The characters before the first line feed, and the characters after
    it, if there is one. *)
Fixpoint break_line (s : string) : string * option string :=
  match s with
  | EmptyString => (EmptyString, None)
  | String c s' =>
      if Ascii.eqb c (ascii_of_nat 10) then (EmptyString, Some s')
      else let '(line, rest) := break_line s' in (String c line, rest)
  end.

Definition readline (file : TextFile) : string * TextFile :=
  if eof file then (EmptyString, file)
  else
    match break_line (unread file) with
    | (line, Some rest) =>
        (line, {| unread := rest;
                  tellpos := (tellpos file + String.length line + 1)%nat;
                  eof := false |})
    | (line, None) =>
        (line, {| unread := EmptyString;
                  tellpos := (tellpos file + String.length line)%nat;
                  eof := true |})
    end.

(** *** The accessors of IXAMolWrapper *)

(** A bond identifier: the bond at an index of the molecule, or the
    central bond of a stereocenter. *)
Inductive IXA_BONDID : Type :=
  | BondIndex (bond_index : nat)
  | CentralBondOf (stereo : nat).

(** The constructor of [IXAMolWrapper] and the accessors [read_next]
    calls, each of which ends with [check_for_errors()]: [atom_count()],
    [atom(i)], [atom_position(atom)], [bond_count()], [bond(i)],
    [bond(bond_id)], [bond_type(bond_id)], [stereo_count()], [stereo(i)],
    [stereo_topology(stereo)], [stereo_parity(stereo)],
    [stereo_central_atom(stereo)], [atom_index(atom)] and
    [stereo_central_bond(stereo)].  Atoms, bonds and stereocenters are
    named by their index in the molecule.  [get_atom] has no check of its
    own; [read_string] has its status from [ixa_read_inchi]. *)
Inductive ixa_accessor : Type :=
  | IXAMolWrapper_new
  | Atom_count
  | Atom_id (atom_index : nat)
  | Atom_position (atom : nat)
  | Bond_count
  | Bond_id (bond_index : nat)
  | Bond_atoms (bond : IXA_BONDID)
  | Bond_type (bond : nat)
  | Stereo_count
  | Stereo_id (stereo_index : nat)
  | Stereo_topology (stereo : nat)
  | Stereo_parity (stereo : nat)
  | Stereo_central_atom (stereo : nat)
  | Atom_index (atom : nat)
  | Stereo_central_bond (stereo : nat).

(** Modelled from the spec: the status channel of the toolkit on the read
    path (section 6: every invocation gives zero or more warnings, or an
    error): what the channel holds when the last of the accessors called
    so far checks it. *)
Class StatusChannel : Type := {
  ixa_accessor_status : list ixa_accessor -> list (IXA_STATUS * string);
}.

(** One step of the reader: a call of an accessor, a warning of the
    reader itself, or a change of the frame. *)
Inductive read_step : Type :=
  | Access (a : ixa_accessor)
  | ReaderWarning (w : warning)
  | Update (f : Frame -> Frame).

(** *** The reader: IXAMolWrapper::get_atom and InChIFormat::read_next *)

Section Reader.
Context `{PeriodicTable} `{Toolkit} `{StatusChannel}.

(** [IXAMolWrapper::get_atom(atom_id)] *)
Definition get_atom (a : ixa_atom) : Atom :=
  let atom := Atom_new (atom_element a) in
  let mass := atom_mass a in
  let atom :=
    if negb (mass =? IXA_ATOM_NATURAL_MASS)
    then set_mass (inject_Z mass) atom else atom in
  let charge := atom_charge a in
  let atom :=
    if negb (charge =? 0) then set_charge (inject_Z charge) atom
    else atom in
  let radical := atom_radical a in
  let atom :=
    if bool_decide (radical ≠ IXA_ATOM_RADICAL_NONE)
    then set "radial" (DOUBLE (inject_Z (radical_code radical))) atom
    else atom in
  let mass1 := atom_hydrogens a 1 in
  let mass2 := atom_hydrogens a 2 in
  let mass3 := atom_hydrogens a 3 in
  let atom :=
    if negb (mass1 =? 0)
    then set "hydrogen_count" (DOUBLE (inject_Z mass1)) atom else atom in
  let atom :=
    if negb (mass2 =? 0)
    then set "deuterium_count" (DOUBLE (inject_Z mass2)) atom else atom in
  let atom :=
    if negb (mass3 =? 0)
    then set "tritium_count" (DOUBLE (inject_Z mass3)) atom else atom in
  atom.

(** The first loop of [read_next]. *)
Definition read_atoms (mol : IXA_MOL) (frame : Frame) : Frame :=
  foldl (fun frame a => add_atom (get_atom a) (atom_position a) frame)
    frame (mol_atoms mol).

(** The second loop of [read_next]: one bond, with its warning. *)
Definition read_bond (b : ixa_bond) (st : Frame * list warning)
    : Frame * list warning :=
  let '(frame, warnings) := st in
  let bo := SINGLE in
  let '(bo, warnings) :=
    match bond_type b with
    | IXA_BOND_TYPE_SINGLE => (SINGLE, warnings)
    | IXA_BOND_TYPE_DOUBLE => (DOUBLE_, warnings)
    | IXA_BOND_TYPE_TRIPLE => (TRIPLE, warnings)
    | IXA_BOND_TYPE_AROMATIC =>
        (bo, warnings ++ [Warning "InChI Reader"
                            "unexpected aromatic bond, assuming single bond"])
    end in
  (add_bond (bond_atoms b).1 (bond_atoms b).2 bo frame, warnings).

(** The body of the [case IXA_STEREO_TOPOLOGY_TETRAHEDRON] block. *)
Definition read_central_atom (center_type : string) (s : ixa_stereo)
    (frame : Frame) : Frame :=
  let central_idx := stereo_central_atom s in
  match stereo_parity s with
  | IXA_STEREO_PARITY_EVEN =>
      set_atom_property central_idx "chirality"
        (STRING (center_type +:+ "even")) frame
  | IXA_STEREO_PARITY_ODD =>
      set_atom_property central_idx "chirality"
        (STRING (center_type +:+ "odd")) frame
  | IXA_STEREO_PARITY_NONE =>
      set_atom_property central_idx "chirality"
        (STRING (center_type +:+ "none")) frame
  | IXA_STEREO_PARITY_UNKNOWN =>
      set_atom_property central_idx "chirality"
        (STRING (center_type +:+ "unknown")) frame
  end.

(** The body of the [case IXA_STEREO_TOPOLOGY_RECTANGLE] block. *)
Definition read_central_bond (s : ixa_stereo) (frame : Frame) : Frame :=
  let bond := stereo_central_bond s in
  match stereo_parity s with
  | IXA_STEREO_PARITY_EVEN =>
      add_bond bond.1 bond.2 EVEN_RECTANGLE
        (remove_bond bond.1 bond.2 frame)
  | IXA_STEREO_PARITY_ODD =>
      add_bond bond.1 bond.2 ODD_RECTANGLE
        (remove_bond bond.1 bond.2 frame)
  | IXA_STEREO_PARITY_UNKNOWN =>
      add_bond bond.1 bond.2 DOUBLE_ (remove_bond bond.1 bond.2 frame)
  | IXA_STEREO_PARITY_NONE => frame
  end.

(** The third loop of [read_next]: the [switch] on the topology of one
    stereocenter.  The antirectangle case has no [break]: after it has
    changed [center_type] it runs the tetrahedron case. *)
Definition read_stereo (s : ixa_stereo) (frame : Frame) : Frame :=
  let center_type := "tetrahedron_" in
  match stereo_topology s with
  | IXA_STEREO_TOPOLOGY_ANTIRECTANGLE =>
      let center_type := "antirectangle_" in
      read_central_atom center_type s frame
  | IXA_STEREO_TOPOLOGY_TETRAHEDRON =>
      read_central_atom center_type s frame
  | IXA_STEREO_TOPOLOGY_RECTANGLE => read_central_bond s frame
  | IXA_STEREO_TOPOLOGY_INVALID => frame
  end.

(** The three loops of [read_next] with the checks of the accessors left
    out: the frame that a read which completes leaves, and the warnings of
    the reader itself. *)
Definition read_molecule (mol : IXA_MOL) (frame : Frame)
    : Frame * list warning :=
  let frame := read_atoms mol frame in
  let '(frame, warnings) :=
    foldl (fun st b => read_bond b st) (frame, []) (mol_bonds mol) in
  (foldl (fun frame s => read_stereo s frame) frame (mol_stereos mol),
   warnings).

(** One iteration of the first loop of [read_next]: the test of the loop,
    [mol.atom(i)], [mol.atom_position(atom_id)], and [frame.add_atom]. *)
Definition read_atom_steps (i : nat) (a : ixa_atom) : list read_step :=
  [Access Atom_count; Access (Atom_id i); Access (Atom_position i);
   Update (add_atom (get_atom a) (atom_position a))].

(** One iteration of the second loop. *)
Definition read_bond_steps (i : nat) (b : ixa_bond) : list read_step :=
  let bo := SINGLE in
  let '(bo, warned) :=
    match bond_type b with
    | IXA_BOND_TYPE_SINGLE => (SINGLE, [])
    | IXA_BOND_TYPE_DOUBLE => (DOUBLE_, [])
    | IXA_BOND_TYPE_TRIPLE => (TRIPLE, [])
    | IXA_BOND_TYPE_AROMATIC =>
        (bo, [ReaderWarning
                (Warning "InChI Reader"
                   "unexpected aromatic bond, assuming single bond")])
    end in
  [Access Bond_count; Access (Bond_id i); Access (Bond_atoms (BondIndex i));
   Access (Bond_type i)]
  ++ warned
  ++ [Update (add_bond (bond_atoms b).1 (bond_atoms b).2 bo)].

(** One iteration of the third loop: the accessors each case of the
    [switch] calls, before it changes the frame as [read_stereo] does. *)
Definition read_stereo_steps (i : nat) (s : ixa_stereo) : list read_step :=
  [Access Stereo_count; Access (Stereo_id i); Access (Stereo_topology i);
   Access (Stereo_parity i)]
  ++ match stereo_topology s with
     | IXA_STEREO_TOPOLOGY_ANTIRECTANGLE
     | IXA_STEREO_TOPOLOGY_TETRAHEDRON =>
         [Access (Stereo_central_atom i);
          Access (Atom_index (stereo_central_atom s));
          Update (read_stereo s)]
     | IXA_STEREO_TOPOLOGY_RECTANGLE =>
         [Access (Stereo_central_bond i);
          Access (Bond_atoms (CentralBondOf i));
          Update (read_stereo s)]
     | IXA_STEREO_TOPOLOGY_INVALID => []
     end.

(** The three loops of [read_next]; each ends with the test that fails. *)
Definition read_steps (mol : IXA_MOL) : list read_step :=
  concat (imap read_atom_steps (mol_atoms mol)) ++ [Access Atom_count]
  ++ concat (imap read_bond_steps (mol_bonds mol)) ++ [Access Bond_count]
  ++ concat (imap read_stereo_steps (mol_stereos mol))
  ++ [Access Stereo_count].

(** Running the steps: the warnings given, the frame as the steps left it
    and how the run ends.  [history] holds the accessors called so far; a
    check that throws stops the run, with the frame as it is then. *)
Fixpoint run_read (todo : list read_step) (history : list ixa_accessor)
    (frame : Frame) : list warning * Frame * result () :=
  match todo with
  | [] => ([], frame, Ok ())
  | Access a :: todo' =>
      let history := history ++ [a] in
      let '(warnings, checked) :=
        check_for_errors (ixa_accessor_status history) in
      match checked with
      | Err e => (warnings, frame, Err e)
      | Ok _ =>
          let '(given, frame, r) := run_read todo' history frame in
          (warnings ++ given, frame, r)
      end
  | ReaderWarning w :: todo' =>
      let '(given, frame, r) := run_read todo' history frame in
      (w :: given, frame, r)
  | Update f :: todo' => run_read todo' history (f frame)
  end.

(** [InChIFormat::read_next(frame)]: the warnings given, the frame and the
    file as the call leaves them, and how the call ends. *)
Definition read_next (file_ : TextFile) (frame : Frame)
    : list warning * (Frame * TextFile) * result () :=
  let '(inchi, file_) := readline file_ in
  (* IXAMolWrapper mol; *)
  let history := [IXAMolWrapper_new] in
  let '(created, checked) :=
    check_for_errors (ixa_accessor_status history) in
  match checked with
  | Err e => (created, (frame, file_), Err e)
  | Ok _ =>
      (* mol.read_string(inchi.to_string()); *)
      let '(status, mol) := ixa_read_inchi inchi in
      let '(parsed, checked) := check_for_errors status in
      match checked with
      | Err e => (created ++ parsed, (frame, file_), Err e)
      | Ok _ =>
          let '(given, frame, r) :=
            run_read (read_steps mol) history frame in
          (created ++ parsed ++ given, (frame, file_), r)
      end
  end.
End Reader.


(** *** The writer: InChIFormat::write_next *)

Section Writer.
Context `{PeriodicTable} `{Toolkit}.

(** [double_to_int(value, int_part)]: the integer part, when the remainder
    that [std::modf] gives is zero.  The [static_cast<int>] is written
    without its range: the definition is that of the code for the values in
    the range of [int], outside of which the cast is undefined. *)
Definition double_to_int (value : Q) : option Z :=
  let value := Qred value in
  if (Qden value =? 1)%positive then Some (Qnum value) else None.

(** [IXAMolWrapper::create_atom(atom, pos)] *)
Definition create_atom (atom : Atom) (pos : Vector3D) : ixa_call :=
  IXA_CreateAtom (atomic_number atom) pos
    (double_to_int (mass atom)) (double_to_int (charge atom)).

(** [IXAMolWrapper::create_bond(bond, order)] *)
Definition create_bond (bond : Bond) (order : BondOrder) : ixa_call :=
  IXA_CreateBond bond.1 bond.2
    match order with
    | SINGLE | AMIDE | DATIVE_L | DATIVE_R | UP | DOWN
    | WEDGE_UP | WEDGE_DOWN | WEDGE_EITHER => Some IXA_BOND_TYPE_SINGLE
    | DOUBLE_ | EVEN_RECTANGLE | ODD_RECTANGLE => Some IXA_BOND_TYPE_DOUBLE
    | TRIPLE => Some IXA_BOND_TYPE_TRIPLE
    | AROMATIC => Some IXA_BOND_TYPE_AROMATIC
    | UNKNOWN => None (* Don't set *)
    end.

(** [IXA_MOL_GetAtomAtomicNumber] on the molecule the writer built from
    [frame]: the number [create_atom] gave the atom, or the default. *)
Definition mol_atomic_number (frame : Frame) (index : nat) : Z :=
  default ixa_default_atomic_number
    (atoms frame !! index ≫= atomic_number).

Definition parity_of (parity : string) : IXA_STEREO_PARITY :=
  if String.eqb parity "odd" then IXA_STEREO_PARITY_ODD
  else if String.eqb parity "even" then IXA_STEREO_PARITY_EVEN
  else if String.eqb parity "none" then IXA_STEREO_PARITY_NONE
  else IXA_STEREO_PARITY_UNKNOWN.

(** [IXAMolWrapper::create_stereo_tetrahedron(center, a, parity)] on the
    molecule built from [frame]: the stereocenter it creates. *)
Definition create_stereo_tetrahedron (frame : Frame) (center : nat)
    (a : list nat) (parity : string) : outcome exception ixa_call :=
  match a with
  | a0 :: a1 :: a2 :: rest =>
      let c0 := AtomId center in
      let v1 := AtomId a0 in
      let v2 := AtomId a1 in
      let v3 := AtomId a2 in
      let v4 := match rest with
                | a3 :: _ => AtomId a3
                | [] => IXA_ATOMID_IMPLICIT_H
                end in
      (* We have an implicit hydrogen or the fourth atom is a hydrogen,
         so we need to swap it with the first vertex *)
      let swap :=
        (length a =? 3)%nat
        || match rest with
           | a3 :: _ => mol_atomic_number frame a3 =? 1
           | [] => false
           end in
      let '(v1, v4) := if swap then (v4, v1) else (v1, v4) in
      Ok (IXA_CreateStereoTetrahedron c0 v1 v2 v3 v4 (parity_of parity))
  | _ => Err AssertionFailure (* assert(a.size() >= 3) *)
  end.

Definition eps : Q := 1 # 1000000.

(** [a > b] on doubles. *)
Definition Qgtb (a b : Q) : bool := negb (Qle_bool a b).

(** [is_zero_dimensions(frame)] *)
Definition is_zero_dimensions (frame : Frame) : bool :=
  let size := size frame in
  if (size =? 0)%nat || (size =? 1)%nat then true (* by definition! *)
  else
    forallb (fun i => negb (Qgtb (distance frame 0 i) eps))
      (seq 1 (length (positions frame) - 1)).

(** The adjacency list [write_next] builds from the bonds. *)
Definition adj_list (frame : Frame) : list (list nat) :=
  foldl (fun adj (bond : Bond) =>
           alter (fun l => l ++ [bond.1]) bond.2
             (alter (fun l => l ++ [bond.2]) bond.1 adj))
    (replicate (size frame) []) (fst <$> bonds frame).

Definition under_connected : warning :=
  Warning "InChI writer"
    "tetrahedral chirality property set for atom with fewer than 3 bonds".

(** The body of the loop over the atoms of a frame of zero dimensions. *)
Definition write_stereo (frame : Frame) (adj : list (list nat)) (i : nat)
    : list action :=
  match atoms frame !! i with
  | None => []
  | Some atom =>
      let chirality := default EmptyString (get_string "chirality" atom) in
      (* TODO: Add antirectangle support *)
      if String.prefix "tetrahedron" chirality then
        if (length (adj !!! i) <=? 2)%nat then [Warn under_connected]
        else if (String.length chirality <? 12)%nat then
          [Throw StdOutOfRange] (* chirality_sv.substr(12) *)
        else
          let parity := Parse.string_drop 12 chirality in
          match create_stereo_tetrahedron frame i (adj !!! i) parity with
          | Ok stereo => [Call stereo]
          | Err x => [Throw x]
          end
      else []
  end.

(** The steps of [write_next] up to the call of [get_strings]. *)
Definition write_actions (frame : Frame) : list action :=
  ((fun '(atom, pos) => Call (create_atom atom pos))
     <$> zip (atoms frame) (positions frame))
  ++ ((fun '(bond, order) => Call (create_bond bond order))
        <$> bonds frame)
  ++ (if is_zero_dimensions frame then
        let adj := adj_list frame in
        flat_map (write_stereo frame adj) (seq 0 (size frame))
      else []).

(** Running the steps: the events up to the first exception. *)
Fixpoint run (todo : list action) : list event * outcome exception () :=
  match todo with
  | [] => ([], Ok ())
  | Warn w :: todo' =>
      let '(events, r) := run todo' in (Warned w :: events, r)
  | Throw x :: _ => ([], Err x)
  | Call c :: todo' =>
      let '(warnings, checked) := check_for_errors (ixa_status c) in
      match checked with
      | Err e => (Called c :: (Warned <$> warnings), Err (ChemfilesError e))
      | Ok _ =>
          let '(events, r) := run todo' in
          (Called c :: (Warned <$> warnings) ++ events, r)
      end
  end.

Definition calls_of (events : list event) : list ixa_call :=
  omap (fun e => match e with Called c => Some c | _ => None end) events.

(** [InChIFormat::write_next(frame)]: what it leaves behind and how it
    ends. *)
Definition write_next (frame : Frame)
    : list event * outcome exception () :=
  let '(events, r) := run (write_actions frame) in
  match r with
  | Err x => (events, Err x)
  | Ok _ =>
      let result := ixa_get_strings (calls_of events) in
      (events ++ [Printed result.1; Printed result.2], Ok ())
  end.
End Writer.

(** *** InChIFormat::forward *)

(** The [while] loop of [forward()], with a bound on the number of
    iterations; [None] when the bound is reached. *)
Fixpoint forward_loop (fuel : nat) (file_ : TextFile)
    : option (option nat * TextFile) :=
  match fuel with
  | O => None
  | S fuel' =>
      if eof file_ then Some (None, file_)
      else
        let pos := tellpos file_ in
        let '(line, file_) := readline file_ in
        if contains "InChI=" line then Some (Some pos, file_)
        else forward_loop fuel' file_
  end.

(** [InChIFormat::forward()]: every iteration but the last two reads at
    least one character. *)
Definition forward (file_ : TextFile) : option (option nat * TextFile) :=
  forward_loop (S (S (String.length (unread file_)))) file_.

(** The lines of a stream that starts at position [pos], with the position
    of each; the last line is what follows the last line feed. *)
Fixpoint lines_from (pos : nat) (s : string) : list (nat * string) :=
  match s with
  | EmptyString => [(pos, EmptyString)]
  | String c s' =>
      if Ascii.eqb c (ascii_of_nat 10)
      then (pos, EmptyString) :: lines_from (S pos) s'
      else
        match lines_from (S pos) s' with
        | (_, line) :: rest => (pos, String c line) :: rest
        | [] => [(pos, String c EmptyString)]
        end
  end.

(** The lines a file still has to give. *)
Definition unread_lines (file : TextFile) : list (nat * string) :=
  if eof file then [] else lines_from (tellpos file) (unread file).

(** *** Definitions the properties are stated with *)

(** Two atoms that differ at most by their chirality property. *)
Definition same_but_chirality (x y : Atom) : Prop :=
  name x = name y /\ mass x = mass y /\ charge x = charge y
  /\ forall key, key <> "chirality" ->
                 properties x !! key = properties y !! key.

Definition parity_name (parity : IXA_STEREO_PARITY) : string :=
  match parity with
  | IXA_STEREO_PARITY_EVEN => "even"
  | IXA_STEREO_PARITY_ODD => "odd"
  | IXA_STEREO_PARITY_NONE => "none"
  | IXA_STEREO_PARITY_UNKNOWN => "unknown"
  end.


Definition has_marker (line : nat * string) : bool :=
  contains "InChI=" line.2.

(** What a call of [forward] on [file] has done when it returns [r] and
    leaves [file']. *)
Definition forward_post (file : TextFile) (r : option nat)
    (file' : TextFile) : Prop :=
  match r with
  | Some pos =>
      exists skipped line rest,
        unread_lines file = skipped ++ (pos, line) :: rest
        /\ contains "InChI=" line = true
        /\ Forall (fun l => has_marker l = false) skipped
        /\ unread_lines file' = rest
  | None =>
      Forall (fun l => has_marker l = false) (unread_lines file)
      /\ eof file' = true
  end.

(** The atom without one of its properties, and the frame in which the
    atom [i] has lost its chirality property. *)
Definition without_property (key : string) (a : Atom) : Atom :=
  {| name := name a; mass := mass a; charge := charge a;
     properties := delete key (properties a) |}.


(** *** The geometry of a frame *)

(** The difference of two vectors, the cross product and the square of
    the norm. *)
Definition vsub (p q : Vector3D) : Vector3D :=
  (p.1.1 - q.1.1, p.1.2 - q.1.2, p.2 - q.2)%Q.

Definition cross (a b : Vector3D) : Vector3D :=
  (a.1.2 * b.2 - a.2 * b.1.2,
   a.2 * b.1.1 - a.1.1 * b.2,
   a.1.1 * b.1.2 - a.1.2 * b.1.1)%Q.

Definition norm2 (a : Vector3D) : Q :=
  (a.1.1 * a.1.1 + a.1.2 * a.1.2 + a.2 * a.2)%Q.

(** Modelled from the spec: [Frame::distance] in a frame that has no
    periodic cell (section 3: the cell is optional) is the distance
    between the two positions. *)
Definition euclidean (frame : Frame) : Prop :=
  forall i j p q,
    positions frame !! i = Some p -> positions frame !! j = Some q ->
    (0 <= distance frame i j)%Q
    /\ (distance frame i j * distance frame i j == norm2 (vsub p q))%Q.

(** The atoms are collinear with the atom 0 within [tolerance]: a line
    through the atom 0 passes within [tolerance] of every atom.  The
    square of the distance of [p] to the line through [p0] of direction
    [u] is [norm2 (cross (vsub p p0) u) / norm2 u]. *)
Definition collinear_with_first (tolerance : Q) (ps : list Vector3D)
    : Prop :=
  exists u : Vector3D,
    ~ (norm2 u == 0)%Q
    /\ forall p0 i p,
         ps !! 0%nat = Some p0 -> ps !! i = Some p ->
         (norm2 (cross (vsub p p0) u)
          <= tolerance * tolerance * norm2 u)%Q.

(** The degenerate geometry of section 4.5: at most one atom, or all atoms
    collinear with the atom 0 within the epsilon of the test. *)
Definition degenerate (frame : Frame) : Prop :=
  (size frame <= 1)%nat \/ collinear_with_first eps (positions frame).

(** *** A periodic table, a toolkit and frames to run the code on *)

Definition sample_table : PeriodicTable := {|
  natural_mass element :=
    if String.eqb element "H" then (1008 # 1000)%Q
    else if String.eqb element "C" then (12011 # 1000)%Q
    else 0%Q;
  element_number element :=
    if String.eqb element "H" then Some 1
    else if String.eqb element "C" then Some 6
    else None;
|}.

(** A toolkit that reports nothing on its status channel. *)
Definition quiet_toolkit : Toolkit := {|
  ixa_read_inchi _ :=
    ([], {| mol_atoms := []; mol_bonds := []; mol_stereos := [] |});
  ixa_status _ := [];
  ixa_get_strings _ := ("InChI=1S//", "AuxInfo=1/0/");
  ixa_default_atomic_number := 6;
|}.

Definition origin : Vector3D := (0, 0, 0)%Q.

(** A hydrogen count of two, and no other departure from the defaults. *)
Definition two_hydrogens : ixa_atom :=
  {| atom_element := "C"; atom_mass := 0; atom_charge := 0;
     atom_radical := IXA_ATOM_RADICAL_NONE;
     atom_hydrogens m := if m =? 1 then 2 else 0;
     atom_position := origin |}.

(** One carbon atom marked as a tetrahedral center. *)
Definition one_atom : Frame :=
  {| atoms := [set "chirality" (STRING "tetrahedron_odd")
                 (@Atom_new sample_table "C")];
     positions := [origin];
     bonds := [];
     distance _ _ := 0%Q |}.

(** A carbon atom marked as a tetrahedral center, bonded to two hydrogen
    atoms, all at the origin. *)
Definition two_neighbours : Frame :=
  {| atoms := [set "chirality" (STRING "tetrahedron_even")
                 (@Atom_new sample_table "C");
               @Atom_new sample_table "H";
               @Atom_new sample_table "H"];
     positions := [origin; origin; origin];
     bonds := [((0, 1), SINGLE); ((0, 2), SINGLE)]%nat;
     distance _ _ := 0%Q |}.


(** Three carbon atoms on a line, one apart. *)
Definition on_a_line : Frame :=
  {| atoms := [@Atom_new sample_table "C"; @Atom_new sample_table "C";
               @Atom_new sample_table "C"];
     positions := [origin; (1, 0, 0)%Q; (2, 0, 0)%Q];
     bonds := [((0, 1), SINGLE); ((1, 2), SINGLE)]%nat;
     distance i j := inject_Z (Z.abs (Z.of_nat i - Z.of_nat j)) |}.

(** *** Definitions the further properties are stated with *)

Definition aromatic_warning : warning :=
  Warning "InChI Reader" "unexpected aromatic bond, assuming single bond".

Definition is_aromatic (b : ixa_bond) : bool :=
  match bond_type b with
  | IXA_BOND_TYPE_AROMATIC => true
  | _ => false
  end.

(** A status entry of severity [IXA_STATUS_ERROR]. *)
Definition is_error (entry : IXA_STATUS * string) : bool :=
  match entry.1 with
  | IXA_STATUS_ERROR => true
  | _ => false
  end.

(** A warning of the reader itself. *)
Definition from_reader (w : warning) : bool :=
  String.eqb (context w) "InChI Reader".

(** The warnings of the reader among the steps, and the changes of the
    frame. *)
Definition reader_warnings (todo : list read_step) : list warning :=
  omap (fun step => match step with
                    | ReaderWarning w => Some w
                    | _ => None
                    end) todo.

Definition updates (todo : list read_step) : list (Frame -> Frame) :=
  omap (fun step => match step with
                    | Update f => Some f
                    | _ => None
                    end) todo.

(** A toolkit that reads every line, with a warning, as two carbon atoms
    and an aromatic bond between them. *)
Definition aromatic_toolkit : Toolkit := {|
  ixa_read_inchi _ :=
    ([(IXA_STATUS_WARNING, "charges were rearranged")],
     {| mol_atoms := [two_hydrogens; two_hydrogens];
        mol_bonds := [{| bond_atoms := (0, 1)%nat;
                         bond_type := IXA_BOND_TYPE_AROMATIC |}];
        mol_stereos := [] |});
  ixa_status _ := [];
  ixa_get_strings _ := ("InChI=1S//", "AuxInfo=1/0/");
  ixa_default_atomic_number := 6;
|}.

(** A status channel that never holds anything; one that holds a warning
    when the type of a bond is asked; one that holds an error when the
    bonds are counted. *)
Definition quiet_channel : StatusChannel := {|
  ixa_accessor_status _ := [];
|}.

Definition noisy_channel : StatusChannel := {|
  ixa_accessor_status history :=
    match last history with
    | Some (Bond_type _) => [(IXA_STATUS_WARNING, "unusual bond")]
    | _ => []
    end;
|}.

Definition failing_channel : StatusChannel := {|
  ixa_accessor_status history :=
    match last history with
    | Some Bond_count => [(IXA_STATUS_ERROR, "no bond table")]
    | _ => []
    end;
|}.

(** A frame with no atom, and a file of one line. *)
Definition no_atoms : Frame :=
  {| atoms := []; positions := []; bonds := []; distance _ _ := 0%Q |}.

Definition one_record : TextFile :=
  {| unread := "InChI=1S/C2H4"; tellpos := 0; eof := false |}.

Section Quiet.
Context `{PeriodicTable} `{Toolkit}.


End Quiet.

(** A carbon atom bonded to three hydrogen atoms, all at the origin, whose
    chirality property names no parity. *)
Definition bare_center : Frame :=
  {| atoms := [set "chirality" (STRING "tetrahedron")
                 (@Atom_new sample_table "C");
               @Atom_new sample_table "H";
               @Atom_new sample_table "H";
               @Atom_new sample_table "H"];
     positions := [origin; origin; origin; origin];
     bonds := [((0, 1), SINGLE); ((0, 2), SINGLE); ((0, 3), SINGLE)]%nat;
     distance _ _ := 0%Q |}.

(** A file of two records, the second at position 13. *)
Definition two_records : TextFile :=
  {| unread := "InChI=1S/CH4" +:+ newline +:+ "InChI=1S/H2O";
     tellpos := 0; eof := false |}.

(** A carbon atom and a hydrogen atom, one apart. *)
Definition stretched : Frame :=
  {| atoms := [@Atom_new sample_table "C"; @Atom_new sample_table "H"];
     positions := [origin; (1, 0, 0)%Q];
     bonds := [((0, 1)%nat, SINGLE)];
     distance _ _ := 1%Q |}.
End InChI.

(** * Properties *)

(** ** The token parser *)
Module ParseSpec.
Import Parse.

Lemma pow2_bits_split (T : int_type) :
  0 < sizeof T -> 2 ^ bits T = 2 * 2 ^ (bits T - 1).
Proof.
  intros Hpos. unfold bits.
  replace (8 * sizeof T) with (Z.succ (8 * sizeof T - 1)) at 1 by lia.
  rewrite Z.pow_succ_r by lia. reflexivity.
Qed.

Lemma static_cast_in_range (T : int_type) (v : Z) :
  0 < sizeof T -> in_range T (static_cast T v).
Proof.
  intros Hpos. pose proof (pow2_bits_split T Hpos) as Hsplit.
  assert (0 < 2 ^ (bits T - 1)) by (apply Z.pow_pos_nonneg; unfold bits; lia).
  unfold in_range, static_cast, numeric_limits_min, numeric_limits_max.
  destruct (is_signed T).
  - pose proof (Z.mod_pos_bound (v + 2 ^ (bits T - 1)) (2 ^ bits T)). lia.
  - pose proof (Z.mod_pos_bound v (2 ^ bits T)). lia.
Qed.

Lemma static_cast_id (T : int_type) (v : Z) :
  0 < sizeof T -> in_range T v -> static_cast T v = v.
Proof.
  intros Hpos. pose proof (pow2_bits_split T Hpos) as Hsplit.
  unfold in_range, static_cast, numeric_limits_min, numeric_limits_max.
  destruct (is_signed T); intros Hr.
  - rewrite Z.mod_small; lia.
  - rewrite Z.mod_small; lia.
Qed.

(** The limits of a narrower signed type lie within those of [int64_t]. *)
Lemma signed_limits_within_int64 (T : int_type) :
  is_signed T = true -> 0 < sizeof T < 8 ->
  numeric_limits_min int64_t < numeric_limits_min T
  /\ numeric_limits_max T < numeric_limits_max int64_t.
Proof.
  intros Hs [Hlo Hhi].
  unfold numeric_limits_min, numeric_limits_max. rewrite Hs. simpl is_signed.
  cbv iota.
  assert (2 ^ (bits T - 1) < 2 ^ (bits int64_t - 1)).
  { apply Z.pow_lt_mono_r; unfold bits; simpl; lia. }
  lia.
Qed.

(** The range check of [convert_integer] does reject what lies above the
    maximum of a narrower signed type. *)
Lemma convert_integer_above_max (T : int_type) (v : Z) :
  is_signed T = true -> 0 < sizeof T < 8 ->
  numeric_limits_max T < v ->
  convert_integer T int64_t v = Err (OutOfRangeThisType v).
Proof.
  intros Hs Hsz Hv.
  destruct (signed_limits_within_int64 T Hs Hsz) as [Hmin Hmax].
  unfold convert_integer. simpl sizeof at 2.
  destruct (Z.ltb_spec (sizeof T) 8) as [_|]; [|lia].
  rewrite static_cast_id.
  - destruct (Z.gtb_spec v (numeric_limits_max T)); [reflexivity | lia].
  - simpl; lia.
  - unfold in_range. split; [|lia].
    assert (0 <= numeric_limits_max T).
    { unfold numeric_limits_max. rewrite Hs.
      assert (0 < 2 ^ (bits T - 1))
        by (apply Z.pow_pos_nonneg; unfold bits; lia).
      lia. }
    unfold numeric_limits_min at 1. simpl. lia.
Qed.

(** Nothing in [convert_integer] compares the value with the minimum: what
    lies below the minimum of a narrower signed type is cast, and comes out
    as another value, which is in range. *)
Lemma convert_integer_below_min (T : int_type) (v : Z) :
  is_signed T = true -> 0 < sizeof T < 8 ->
  v < numeric_limits_min T ->
  convert_integer T int64_t v = Ok (static_cast T v)
  /\ in_range T (static_cast T v)
  /\ static_cast T v <> v.
Proof.
  intros Hs Hsz Hv.
  destruct (signed_limits_within_int64 T Hs Hsz) as [Hmin Hmax].
  assert (Hin : in_range T (static_cast T v))
    by (apply static_cast_in_range; lia).
  assert (Hmax0 : numeric_limits_min T <= numeric_limits_max T).
  { unfold numeric_limits_min, numeric_limits_max. rewrite Hs.
    assert (0 < 2 ^ (bits T - 1))
      by (apply Z.pow_pos_nonneg; unfold bits; lia).
    lia. }
  split; [|split; [exact Hin|]].
  - unfold convert_integer. simpl sizeof at 2.
    destruct (Z.ltb_spec (sizeof T) 8) as [_|]; [|lia].
    rewrite (static_cast_id int64_t).
    + destruct (Z.gtb_spec v (numeric_limits_max T)); [lia | reflexivity].
    + simpl; lia.
    + unfold in_range. lia.
  - unfold in_range in Hin. lia.
Qed.

(** C1.  [parse<int32_t>] goes through [parse<int64_t>] and then through
    [convert_integer], which checks the value against the maximum of
    [int32_t] only: the token "-3000000000", below the minimum of [int32_t],
    is not refused, the parse returns the truncated value 1294967296. *)
Theorem parse_int32_below_min_is_truncated :
  parse_int64 "-3000000000" = Ok (-3000000000)
  /\ -3000000000 < numeric_limits_min int32_t
  /\ parse_integer int32_t "-3000000000" = Ok 1294967296.
Proof. repeat split. Qed.

(** *** The fields [next] gives are the fields of the line *)

Lemma fields_drop_whitespace (s : string) :
  fields (string_drop (leading is_whitespace s) s) = fields s.
Proof.
  induction s as [|c s IH]; simpl; [reflexivity|].
  destruct (is_whitespace c) eqn:Hc; simpl.
  - exact IH.
  - rewrite Hc. reflexivity.
Qed.

(** After the whitespace is skipped, the input is empty or starts a
    field. *)
Lemma drop_whitespace_starts_field (s : string) :
  let s1 := string_drop (leading is_whitespace s) s in
  s1 = EmptyString
  \/ exists c s', s1 = String c s' /\ is_whitespace c = false.
Proof.
  induction s as [|c s IH]; simpl; [left; reflexivity|].
  destruct (is_whitespace c) eqn:Hc; simpl.
  - exact IH.
  - right. eauto.
Qed.

Lemma starts_field_leading (s : string) :
  starts_field s = false -> leading not_whitespace s = O.
Proof.
  destruct s as [|c s]; simpl; [reflexivity|].
  unfold not_whitespace. intros ->. reflexivity.
Qed.

(** The first field of an input that starts one is the longest prefix
    without whitespace. *)
Lemma fields_first (c : ascii) (s : string) :
  is_whitespace c = false ->
  let size := S (leading not_whitespace s) in
  fields (String c s)
  = string_take size (String c s) :: fields (string_drop size (String c s)).
Proof.
  revert c. induction s as [|d s IH]; intros c Hc; simpl.
  - rewrite Hc. reflexivity.
  - rewrite Hc. change (not_whitespace d) with (negb (is_whitespace d)).
    destruct (is_whitespace d) eqn:Hd; simpl; rewrite ?Hd.
    + reflexivity.
    + specialize (IH d Hd). simpl in IH. rewrite Hd in IH.
      rewrite IH. reflexivity.
Qed.

(** What [next] returns, from the fields of the rest of the input. *)
Lemma next_fields (it : tokens_iterator) :
  match fields (chars (input_ it)) with
  | [] => next it = Err (TooFewValues (count_ it + 1) (count_ it))
  | token :: rest =>
      exists it',
        next it = Ok (token, it')
        /\ fields (chars (input_ it')) = rest
        /\ count_ it' = (count_ it + 1)%nat
        /\ initial_start_ it' = initial_start_ it
  end.
Proof.
  unfold next.
  rewrite <- (fields_drop_whitespace (chars (input_ it))).
  destruct (drop_whitespace_starts_field (chars (input_ it)))
    as [Hempty | (c & s' & Hs & Hc)]; simpl chars.
  - rewrite Hempty. simpl. reflexivity.
  - rewrite Hs. rewrite (fields_first c s' Hc).
    simpl leading. change (not_whitespace c) with (negb (is_whitespace c)).
    rewrite Hc. simpl negb. cbv iota. simpl Nat.eqb. cbv iota.
    eexists. split.
    { unfold substr. simpl chars. rewrite Hs. reflexivity. }
    split; [|split; reflexivity].
    simpl. rewrite Hs. reflexivity.
Qed.

(** A call with more slots than the input has fields stops at the first
    field that is missing, if the fields before it parse. *)
Lemma scan_impl_too_few {V} (args : list (string -> result V))
    (it : tokens_iterator) :
  (length (fields (chars (input_ it))) < length args)%nat ->
  (forall i parse token,
     args !! i = Some parse ->
     fields (chars (input_ it)) !! i = Some token ->
     is_ok (parse token)) ->
  let available := length (fields (chars (input_ it))) in
  scan_impl it args
  = Err (TooFewValues (count_ it + available + 1) (count_ it + available)).
Proof.
  revert it. induction args as [|parse args IH]; intros it Hlen Hok;
    simpl in Hlen; [lia|].
  pose proof (next_fields it) as Hnext. simpl.
  destruct (fields (chars (input_ it))) as [|token rest] eqn:Hfields.
  - rewrite Hnext. simpl. f_equal. f_equal; lia.
  - destruct Hnext as (it' & -> & Hrest & Hcount & _). simpl.
    pose proof (Hok O parse token eq_refl eq_refl) as Hparse.
    destruct (parse token) as [v|e]; [|contradiction]. simpl.
    rewrite IH.
    + simpl. rewrite Hrest, Hcount. simpl. f_equal. f_equal; lia.
    + rewrite Hrest. simpl in Hlen. lia.
    + intros i p t Hp Ht. apply (Hok (S i) p t); [exact Hp|].
      rewrite Hrest in Ht. exact Ht.
Qed.

Lemma prefix_append (s post : string) : String.prefix s (s +:+ post) = true.
Proof.
  induction s as [|c s IH]; simpl.
  - destruct post; reflexivity.
  - destruct (ascii_dec c c); [exact IH | contradiction].
Qed.

Lemma contains_prefix (s t : string) :
  String.prefix s t = true -> contains s t = true.
Proof.
  intros Hprefix. destruct t; unfold contains; rewrite Hprefix; reflexivity.
Qed.

Lemma occurs_in_contains (s t : string) :
  occurs_in s t -> contains s t = true.
Proof.
  intros (pre & post & ->).
  induction pre as [|c pre IH].
  - apply contains_prefix. exact (prefix_append s post).
  - simpl. rewrite IH. apply orb_true_r.
Qed.

(** C2, as the code has it.  When the line has fewer fields than the call
    has slots and the fields it has parse, [scan] fails with the message of
    the iterator: it tried to read one value more than there are, whatever
    the number of slots; and whatever fails inside [scan] comes out wrapped
    in an error that holds the line. *)
Theorem scan_too_few_fields {V} (line : string)
    (args : list (string -> result V)) :
  ((length (fields line) < length args)%nat ->
   (forall i parse token,
      args !! i = Some parse -> fields line !! i = Some token ->
      is_ok (parse token)) ->
   let available := length (fields line) in
   scan line args
   = Err (WhileReading line (TooFewValues (available + 1) available))
   /\ what (WhileReading line (TooFewValues (available + 1) available))
     = "error while reading '" +:+ line +:+ "': tried to read "
       +:+ pretty (available + 1)%nat +:+ " values, but there are only "
       +:+ pretty available)
  /\ (forall e, scan line args = Err e ->
       exists cause, e = WhileReading line cause /\ occurs_in line (what e)).
Proof.
  split.
  - intros Hlen Hok available. split; [|reflexivity].
    unfold scan.
    rewrite (scan_impl_too_few args
               (tokens_iterator_new (StringView 0 line)) Hlen Hok).
    reflexivity.
  - intros e. unfold scan.
    destruct (scan_impl _ args) as [[values it']|cause]; [discriminate|].
    intros [= <-]. exists cause. split; [reflexivity|].
    exists "error while reading '", ("': " +:+ what cause). reflexivity.
Qed.

Lemma scan_too_few_fields_witness :
  scan "1 2" three_int_slots = Err (WhileReading "1 2" (TooFewValues 3 2))
  /\ what (WhileReading "1 2" (TooFewValues 3 2))
     = "error while reading '1 2': tried to read 3 values, but there are only 2".
Proof.
  refine (proj1 (scan_too_few_fields "1 2" three_int_slots) _ _).
  - vm_compute. lia.
  - intros i parse token Hp Ht.
    change (fields "1 2") with ["1"; "2"] in Ht.
    unfold three_int_slots in Hp.
    destruct i as [|[|i]]; simpl in Hp, Ht; try discriminate;
      injection Hp as <-; injection Ht as <-; vm_compute; exact I.
Defined.

(** C2, as it is stated, fails: three slots on the line "1": the error
    names 2 values tried and 1 available; the 3 values requested appear
    nowhere in the message. *)
Lemma scan_does_not_name_requested_count :
  (length (fields "1") < length three_int_slots)%nat
  /\ length three_int_slots = 3%nat
  /\ scan "1" three_int_slots = Err (WhileReading "1" (TooFewValues 2 1))
  /\ what (WhileReading "1" (TooFewValues 2 1))
     = "error while reading '1': tried to read 2 values, but there are only 1"
  /\ ~ occurs_in (pretty 3%nat) (what (WhileReading "1" (TooFewValues 2 1))).
Proof.
  split; [vm_compute; lia|]. do 3 (split; [reflexivity|]).
  intros Hin. apply occurs_in_contains in Hin. vm_compute in Hin.
  discriminate.
Qed.

End ParseSpec.

(** ** The index of the binary trajectory codec *)
Module TRRSpec.
Import TRR.

#[local] Arguments record_bytes : simpl never.
#[local] Arguments stream_bytes : simpl never.

Section Index.
Context `{HeaderLayout}.

Lemma stream_bytes_nil : stream_bytes [] = 0.
Proof. reflexivity. Qed.

Lemma stream_bytes_cons (r : record) (rs : list record) :
  stream_bytes (r :: rs) = record_bytes r + stream_bytes rs.
Proof. reflexivity. Qed.

Lemma record_bytes_pos (r : record) : 0 < record_bytes r.
Proof.
  unfold record_bytes. pose proof (header_bytes_pos (header r)). lia.
Qed.

Lemma stream_bytes_nonneg (rs : list record) : 0 <= stream_bytes rs.
Proof.
  induction rs as [|r rs IH]; [rewrite stream_bytes_nil; lia|].
  pose proof (record_bytes_pos r). rewrite stream_bytes_cons. lia.
Qed.

Lemma stream_bytes_app (l1 l2 : list record) :
  stream_bytes (l1 ++ l2) = stream_bytes l1 + stream_bytes l2.
Proof.
  induction l1 as [|r l1 IH]; simpl.
  - rewrite stream_bytes_nil. lia.
  - rewrite !stream_bytes_cons, IH. lia.
Qed.

(** The record number [k] is the one found at the end of the first [k]
    records. *)
Lemma record_at_stream_bytes (rs : list record) (k : nat) :
  record_at rs (stream_bytes (take k rs)) = rs !! k.
Proof.
  revert k. induction rs as [|r rs IH]; intros [|k]; simpl;
    try reflexivity.
  pose proof (record_bytes_pos r) as Hr.
  pose proof (stream_bytes_nonneg (take k rs)) as Hk.
  rewrite stream_bytes_cons.
  destruct (Z.eqb_spec (record_bytes r + stream_bytes (take k rs)) 0);
    [lia|].
  destruct (Z.ltb_spec (record_bytes r + stream_bytes (take k rs))
              (record_bytes r)); [lia|].
  rewrite <- IH. f_equal. lia.
Qed.

Lemma offsets_from_app (base : Z) (l1 l2 : list record) :
  offsets_from base (l1 ++ l2)
  = offsets_from base l1 ++ offsets_from (base + stream_bytes l1) l2.
Proof.
  revert base. induction l1 as [|r l1 IH]; intros base; simpl.
  - rewrite stream_bytes_nil, Z.add_0_r. reflexivity.
  - rewrite IH, stream_bytes_cons, Z.add_assoc. reflexivity.
Qed.

Lemma ranges_from_app (base : Z) (l1 l2 : list record) :
  ranges_from base (l1 ++ l2)
  = ranges_from base l1 ++ ranges_from (base + stream_bytes l1) l2.
Proof.
  revert base. induction l1 as [|r l1 IH]; intros base; simpl.
  - rewrite stream_bytes_nil, Z.add_0_r. reflexivity.
  - rewrite IH, stream_bytes_cons, Z.add_assoc. reflexivity.
Qed.

Lemma length_offsets_from (base : Z) (l : list record) :
  length (offsets_from base l) = length l.
Proof.
  revert base. induction l as [|r l IH]; intros base; simpl;
    [reflexivity|]. rewrite IH. reflexivity.
Qed.

(** The entry [j] of the offset table of the first [k] records. *)
Lemma offsets_from_lookup (rs : list record) (k j : nat) :
  (j < k)%nat -> (k <= length rs)%nat ->
  offsets_from 0 (take k rs) !! j = Some (stream_bytes (take j rs)).
Proof.
  intros Hj Hk.
  assert (Htake : take k rs = take j rs ++ take (k - j) (drop j rs)).
  { rewrite take_take_drop. f_equal. lia. }
  rewrite Htake, offsets_from_app.
  rewrite lookup_app_r by (rewrite length_offsets_from, length_take; lia).
  rewrite length_offsets_from, length_take.
  replace (j - j `min` length rs)%nat with O by lia.
  destruct (take (k - j) (drop j rs)) as [|r l] eqn:Hl.
  - apply (f_equal length) in Hl. rewrite length_take, length_drop in Hl.
    simpl in Hl. lia.
  - simpl. f_equal; lia.
Qed.

(** Every range of the log of a stream starts at or after the base, and
    ends at or before the end of the stream. *)
Lemma ranges_from_bounds (base : Z) (l : list record) :
  Forall (fun range : Z * Z =>
            base <= range.1 /\ range.2 <= base + stream_bytes l)
    (ranges_from base l).
Proof.
  revert base. induction l as [|r l IH]; intros base; simpl;
    constructor.
  - pose proof (record_bytes_pos r).
    pose proof (stream_bytes_nonneg l) as Hl.
    rewrite stream_bytes_cons. simpl. lia.
  - eapply Forall_impl; [apply IH|].
    intros [first stop]. simpl. pose proof (record_bytes_pos r).
    rewrite stream_bytes_cons. lia.
Qed.

(** No byte is in two ranges of the log of a stream. *)
Lemma ranges_from_cover_once (base b : Z) (l : list record) :
  (length (filter (covers b) (ranges_from base l)) <= 1)%nat
  /\ (b < base -> filter (covers b) (ranges_from base l) = []).
Proof.
  revert base. induction l as [|r l IH]; intros base; simpl.
  - split; [simpl; lia | reflexivity].
  - pose proof (record_bytes_pos r) as Hr.
    destruct (IH (base + record_bytes r)) as [IH1 IH2].
    rewrite filter_cons. destruct (decide _) as [Hc|Hc]; simpl in Hc.
    + split; [|lia]. rewrite IH2 by lia. simpl. lia.
    + split; [exact IH1|]. intros Hb. apply IH2. lia.
Qed.

(** *** The invariant of the codec *)

Lemma indexed_open (rs : list record) : indexed rs 0 (open rs).
Proof. split; simpl; try reflexivity; lia. Qed.

Lemma indexed_length rs k t :
  indexed rs k t -> length (frame_offsets_ t) = k.
Proof.
  intros Ht. rewrite (indexed_offsets _ _ _ Ht), length_offsets_from.
  rewrite length_take. pose proof (indexed_bound _ _ _ Ht). lia.
Qed.

(** One step of indexing adds the next record, or finds the end. *)
Lemma index_frame_indexed rs k t :
  indexed rs k t ->
  match index_frame t with
  | Some t' => (k < length rs)%nat /\ indexed rs (S k) t'
  | None => k = length rs
  end.
Proof.
  intros Ht. destruct Ht as [Hrs Hk Hoff Hend Hlog Hnat].
  unfold index_frame. rewrite Hrs, Hend, record_at_stream_bytes.
  destruct (rs !! k) as [r|] eqn:Hr.
  - pose proof (lookup_lt_Some _ _ _ Hr) as Hlt.
    split; [exact Hlt|].
    pose proof (take_S_r _ _ _ Hr) as Htake.
    split; simpl; rewrite ?Htake.
    + reflexivity.
    + lia.
    + rewrite Hoff, offsets_from_app. simpl. reflexivity.
    + rewrite stream_bytes_app, stream_bytes_cons, stream_bytes_nil. lia.
    + rewrite Hlog, ranges_from_app. simpl. reflexivity.
    + intros r0 _ Hr0. rewrite Hoff.
      destruct k as [|k].
      * simpl. congruence.
      * destruct rs as [|r' rs']; [discriminate|]. simpl.
        apply Hnat; [lia | exact Hr0].
  - apply lookup_ge_None_1 in Hr. lia.
Qed.

Lemma index_frames_indexed rs k n t :
  indexed rs k t ->
  indexed rs (Nat.min (k + n) (length rs)) (index_frames n t).
Proof.
  revert k t. induction n as [|n IH]; intros k t Ht; simpl.
  - pose proof (indexed_bound _ _ _ Ht).
    replace (Nat.min (k + 0) (length rs)) with k by lia. exact Ht.
  - pose proof (index_frame_indexed rs k t Ht) as Hstep.
    destruct (index_frame t) as [t'|].
    + destruct Hstep as [Hlt Ht'].
      replace (k + S n)%nat with (S k + n)%nat by lia.
      apply IH. exact Ht'.
    + subst k. replace (Nat.min (length rs + S n) (length rs))
        with (length rs) by lia. exact Ht.
Qed.

(** Once the index is complete, indexing changes nothing. *)
Lemma index_frames_complete rs n t :
  indexed rs (length rs) t -> index_frames n t = t.
Proof.
  intros Ht. destruct n as [|n]; simpl; [reflexivity|].
  pose proof (index_frame_indexed rs _ t Ht) as Hstep.
  destruct (index_frame t); [lia | reflexivity].
Qed.

Lemma indexed_seek rs k t offset :
  indexed rs k t -> indexed rs k (seek offset t).
Proof. intros []. split; assumption. Qed.

Lemma indexed_set_step rs k t step :
  indexed rs k t -> indexed rs k (set_step step t).
Proof. intros []. split; assumption. Qed.

Lemma indexed_read_frame rs k t :
  indexed rs k t -> indexed rs k (read_frame t).2.
Proof.
  intros Ht. unfold read_frame.
  destruct (record_at _ _) as [r|]; [|exact Ht].
  destruct (negb _); [exact Ht|].
  destruct (negb _); [exact Ht|].
  simpl. apply indexed_set_step, indexed_seek, Ht.
Qed.

(** Every call keeps the index, and never makes it shorter. *)
Lemma indexed_after_call rs k c t :
  indexed rs k t ->
  exists k', (k <= k')%nat /\ indexed rs k' (after_call c t).
Proof.
  intros Ht. pose proof (indexed_bound _ _ _ Ht) as Hk.
  assert (Hstep : forall step,
    exists k', (k <= k')%nat /\ indexed rs k' (read_step step t).2).
  { intros step. unfold read_step, index_until.
    pose proof (index_frames_indexed rs k
      (S step - length (frame_offsets_ t)) t Ht) as Hi.
    eexists. split; [|destruct (_ !! step)].
    2: apply indexed_read_frame, indexed_set_step, indexed_seek, Hi.
    2: exact Hi. lia. }
  destruct c as [step| |]; simpl.
  - apply Hstep.
  - apply Hstep.
  - unfold index_all. rewrite (indexed_records _ _ _ Ht).
    eexists. split; [|apply (index_frames_indexed rs k _ t Ht)]. lia.
Qed.

Lemma indexed_after_calls rs cs :
  exists k, indexed rs k (after_calls cs (open rs)).
Proof.
  unfold after_calls.
  induction cs as [|c cs IH] using rev_ind; simpl.
  - exists O. apply indexed_open.
  - rewrite foldl_app. simpl. destruct IH as [k Hk].
    destruct (indexed_after_call rs k c _ Hk) as (k' & _ & Hk').
    eauto.
Qed.

(** C3.  Whatever calls came before: the atom count of the first header
    is [natoms_] as soon as a frame is indexed, and reading a later frame
    whose header declares another atom count fails with a format error;
    no frame is returned. *)
Theorem read_step_inconsistent_natoms (rs : list record) (r0 rj : record)
    (j : nat) (cs : list call) :
  rs !! O = Some r0 -> rs !! j = Some rj -> (0 < j)%nat ->
  natoms (header rj) <> natoms (header r0) ->
  let t := after_calls cs (open rs) in
  (frame_offsets_ t <> [] -> natoms_ t = natoms (header r0))
  /\ (read_step j t).1
     = Err (FormatError "inconsistent number of atoms in the trajectory")
  /\ natoms_ (read_step j t).2 = natoms (header r0).
Proof.
  intros Hr0 Hrj Hj Hne t.
  destruct (indexed_after_calls rs cs) as [k Ht]. fold t in Ht.
  pose proof (lookup_lt_Some _ _ _ Hrj) as Hjlt.
  split.
  { intros Hoff. apply (indexed_natoms _ _ _ Ht); [|exact Hr0].
    pose proof (indexed_length _ _ _ Ht).
    destruct (frame_offsets_ t); [contradiction | simpl in *; lia]. }
  unfold read_step, index_until.
  pose proof (index_frames_indexed rs k
    (S j - length (frame_offsets_ t)) t Ht) as Hi.
  rewrite (indexed_length _ _ _ Ht) in Hi |- *.
  pose proof (indexed_bound _ _ _ Ht) as Hk.
  set (k' := Nat.min (k + (S j - k)) (length rs)) in Hi.
  assert (Hk' : (j < k')%nat) by (unfold k'; lia).
  rewrite (indexed_offsets _ _ _ Hi).
  rewrite (offsets_from_lookup rs k' j Hk') by (unfold k'; lia).
  unfold read_frame. simpl.
  rewrite (indexed_records _ _ _ Hi), record_at_stream_bytes, Hrj.
  rewrite (indexed_natoms _ _ _ Hi r0) by (lia || exact Hr0).
  destruct (Z.eqb_spec (natoms (header rj)) (natoms (header r0)));
    [contradiction|].
  simpl. split; [reflexivity|].
  apply (indexed_natoms _ _ _ Hi r0); [lia | exact Hr0].
Qed.

(** C4.  Whatever calls came before: no byte of the stream was scanned
    twice for the index; a further call scans only from the last known
    offset on, where all earlier scans ended; and asking for the number
    of steps again gives the same number, leaves the offset table as it
    is and scans nothing. *)
Theorem index_scans_once (rs : list record) (cs : list call) :
  let t := after_calls cs (open rs) in
  (forall b, (times_scanned b t <= 1)%nat)
  /\ (forall c,
       exists scanned,
         scan_log (after_call c t) = scan_log t ++ scanned
         /\ Forall (fun range : Z * Z => index_end_ t <= range.1) scanned
         /\ Forall (fun range : Z * Z => range.2 <= index_end_ t)
              (scan_log t))
  /\ (let t1 := (nsteps t).2 in
      (nsteps t1).1 = (nsteps t).1
      /\ (nsteps t1).1 = length rs
      /\ frame_offsets_ (nsteps t1).2 = frame_offsets_ t1
      /\ scan_log (nsteps t1).2 = scan_log t1).
Proof.
  intros t. destruct (indexed_after_calls rs cs) as [k Ht]. fold t in Ht.
  pose proof (indexed_bound _ _ _ Ht) as Hk.
  split; [|split].
  - intros b. unfold times_scanned.
    rewrite (indexed_log _ _ _ Ht).
    apply (ranges_from_cover_once 0 b (take k rs)).
  - intros c.
    destruct (indexed_after_call rs k c t Ht) as (k' & Hkk' & Ht').
    pose proof (indexed_bound _ _ _ Ht') as Hk'.
    exists (ranges_from (stream_bytes (take k rs))
              (take (k' - k) (drop k rs))).
    rewrite (indexed_log _ _ _ Ht'), (indexed_log _ _ _ Ht),
      (indexed_end _ _ _ Ht).
    split; [|split].
    + replace k' with (k + (k' - k))%nat at 1 by lia.
      rewrite <- take_take_drop, ranges_from_app. reflexivity.
    + eapply Forall_impl; [apply ranges_from_bounds|].
      intros range [Hfirst _]. exact Hfirst.
    + eapply Forall_impl; [apply ranges_from_bounds|].
      intros range [_ Hstop]. simpl in Hstop. lia.
  - assert (Hall : indexed rs (length rs) (index_all t)).
    { unfold index_all. rewrite (indexed_records _ _ _ Ht).
      pose proof (index_frames_indexed rs k (length rs) t Ht) as Hi.
      replace (Nat.min (k + length rs) (length rs)) with (length rs)
        in Hi by lia.
      exact Hi. }
    assert (Hagain : index_all (index_all t) = index_all t).
    { unfold index_all at 1. apply (index_frames_complete rs), Hall. }
    simpl. rewrite Hagain.
    repeat split; try reflexivity.
    apply (indexed_length _ _ _ Hall).
Qed.
End Index.

Lemma read_step_inconsistent_natoms_witness :
  let t := after_calls [NSteps; ReadStep 0] (open two_frames) in
  (frame_offsets_ t <> [] -> natoms_ t = 3)
  /\ (read_step 1 t).1
     = Err (FormatError "inconsistent number of atoms in the trajectory")
  /\ natoms_ (read_step 1 t).2 = 3.
Proof.
  apply (read_step_inconsistent_natoms two_frames
           (Record_ (header_of 3) []) (Record_ (header_of 4) []) 1
           [NSteps; ReadStep 0]).
  - reflexivity.
  - reflexivity.
  - lia.
  - simpl. lia.
Defined.

End TRRSpec.

(** ** The chemical identifier codec *)
Module InChISpec.
Import InChI.

Section Read.
Context `{PeriodicTable} `{Toolkit}.

Lemma same_but_chirality_refl (x : Atom) : same_but_chirality x x.
Proof. repeat split. Qed.

Lemma same_but_chirality_trans (x y z : Atom) :
  same_but_chirality x y -> same_but_chirality y z ->
  same_but_chirality x z.
Proof.
  intros (? & ? & ? & Hxy) (? & ? & ? & Hyz).
  repeat split; try congruence.
  intros key Hkey. rewrite Hxy, Hyz by exact Hkey. reflexivity.
Qed.

Lemma same_but_chirality_set (value : Property) (x : Atom) :
  same_but_chirality (set "chirality" value x) x.
Proof.
  repeat split. intros key Hkey. simpl.
  apply lookup_insert_ne. congruence.
Qed.

Lemma Forall2_same_refl (l : list Atom) : Forall2 same_but_chirality l l.
Proof.
  induction l; constructor; [apply same_but_chirality_refl | assumption].
Qed.

Lemma set_atom_property_atoms index value frame :
  Forall2 same_but_chirality
    (atoms (set_atom_property index "chirality" value frame))
    (atoms frame).
Proof.
  simpl. generalize (atoms frame) as l. revert index.
  induction index as [|index IH]; intros [|x l]; simpl;
    try constructor; try apply same_but_chirality_set;
    try apply Forall2_same_refl; try apply same_but_chirality_refl.
  apply IH.
Qed.

Lemma add_bond_atoms i j order frame :
  atoms (add_bond i j order frame) = atoms frame.
Proof. unfold add_bond. destruct (existsb _ _); reflexivity. Qed.

Lemma read_stereo_atoms (s : ixa_stereo) (frame : Frame) :
  Forall2 same_but_chirality (atoms (read_stereo s frame)) (atoms frame).
Proof.
  unfold read_stereo, read_central_atom, read_central_bond.
  destruct (stereo_topology s), (stereo_parity s);
    rewrite ?add_bond_atoms;
    first [apply set_atom_property_atoms | apply Forall2_same_refl].
Qed.

Lemma read_bonds_atoms (l : list ixa_bond) (st : Frame * list warning) :
  atoms (foldl (fun st b => read_bond b st) st l).1 = atoms st.1.
Proof.
  revert st. induction l as [|b l IH]; intros [frame warnings]; simpl;
    [reflexivity|].
  rewrite IH. destruct (bond_type b); simpl; apply add_bond_atoms.
Qed.

Lemma read_stereos_atoms (l : list ixa_stereo) (frame : Frame) :
  Forall2 same_but_chirality
    (atoms (foldl (fun frame s => read_stereo s frame) frame l))
    (atoms frame).
Proof.
  revert frame. induction l as [|s l IH]; intros frame; simpl.
  - apply Forall2_same_refl.
  - eapply Forall2_trans; [|apply IH|apply read_stereo_atoms].
    intros x y z. apply same_but_chirality_trans.
Qed.

(** C7.  The atom [get_atom] makes from what the toolkit reports: its
    mass is the natural mass of its element unless the toolkit reports
    another mass, its charge is zero unless the toolkit reports a charge,
    and it has the radical property and the three isotope counts exactly
    when they are not the default, and no other property.  These are the
    atoms [read_next] places in the frame; the rest of [read_next] changes
    nothing of them but the chirality property. *)
Theorem get_atom_sets_what_differs (a : ixa_atom) :
  let atom := get_atom a in
  name atom = atom_element a
  /\ mass atom
     = (if atom_mass a =? IXA_ATOM_NATURAL_MASS
        then natural_mass (atom_element a) else inject_Z (atom_mass a))
  /\ charge atom
     = (if atom_charge a =? 0 then 0%Q else inject_Z (atom_charge a))
  /\ properties atom !! "radial"
     = (if decide (atom_radical a = IXA_ATOM_RADICAL_NONE) then None
        else Some (DOUBLE (inject_Z (radical_code (atom_radical a)))))
  /\ properties atom !! "hydrogen_count"
     = (if atom_hydrogens a 1 =? 0 then None
        else Some (DOUBLE (inject_Z (atom_hydrogens a 1))))
  /\ properties atom !! "deuterium_count"
     = (if atom_hydrogens a 2 =? 0 then None
        else Some (DOUBLE (inject_Z (atom_hydrogens a 2))))
  /\ properties atom !! "tritium_count"
     = (if atom_hydrogens a 3 =? 0 then None
        else Some (DOUBLE (inject_Z (atom_hydrogens a 3))))
  /\ (forall key,
        key <> "radial" -> key <> "hydrogen_count" ->
        key <> "deuterium_count" -> key <> "tritium_count" ->
        properties atom !! key = None)
  /\ (forall mol frame,
        atoms (read_atoms mol frame)
        = atoms frame ++ (get_atom <$> mol_atoms mol))
  /\ (forall mol frame,
        Forall2 same_but_chirality
          (atoms (read_molecule mol frame).1)
          (atoms (read_atoms mol frame))).
Proof.
  unfold get_atom.
  repeat split.
  - destruct (negb (atom_mass a =? _)), (negb (atom_charge a =? 0)),
      (bool_decide _), (negb (atom_hydrogens a 1 =? 0)),
      (negb (atom_hydrogens a 2 =? 0)), (negb (atom_hydrogens a 3 =? 0));
      reflexivity.
  - destruct (atom_mass a =? _), (negb (atom_charge a =? 0)),
      (bool_decide _), (negb (atom_hydrogens a 1 =? 0)),
      (negb (atom_hydrogens a 2 =? 0)), (negb (atom_hydrogens a 3 =? 0));
      reflexivity.
  - destruct (negb (atom_mass a =? _)), (atom_charge a =? 0),
      (bool_decide _), (negb (atom_hydrogens a 1 =? 0)),
      (negb (atom_hydrogens a 2 =? 0)), (negb (atom_hydrogens a 3 =? 0));
      reflexivity.
  - destruct (negb (atom_mass a =? _)), (negb (atom_charge a =? 0)),
      (negb (atom_hydrogens a 1 =? 0)),
      (negb (atom_hydrogens a 2 =? 0)), (negb (atom_hydrogens a 3 =? 0));
      case_bool_decide; case_decide; simpl; simplify_map_eq; done.
  - destruct (negb (atom_mass a =? _)), (negb (atom_charge a =? 0)),
      (bool_decide _), (atom_hydrogens a 1 =? 0),
      (negb (atom_hydrogens a 2 =? 0)), (negb (atom_hydrogens a 3 =? 0));
      simpl; simplify_map_eq; done.
  - destruct (negb (atom_mass a =? _)), (negb (atom_charge a =? 0)),
      (bool_decide _), (negb (atom_hydrogens a 1 =? 0)),
      (atom_hydrogens a 2 =? 0), (negb (atom_hydrogens a 3 =? 0));
      simpl; simplify_map_eq; done.
  - destruct (negb (atom_mass a =? _)), (negb (atom_charge a =? 0)),
      (bool_decide _), (negb (atom_hydrogens a 1 =? 0)),
      (negb (atom_hydrogens a 2 =? 0)), (atom_hydrogens a 3 =? 0);
      simpl; simplify_map_eq; done.
  - intros key Hr Hh Hd Ht.
    destruct (negb (atom_mass a =? _)), (negb (atom_charge a =? 0)),
      (bool_decide _), (negb (atom_hydrogens a 1 =? 0)),
      (negb (atom_hydrogens a 2 =? 0)), (negb (atom_hydrogens a 3 =? 0));
      simpl; simplify_map_eq; done.
  - intros mol frame. unfold read_atoms.
    revert frame. induction (mol_atoms mol) as [|x l IH]; intros frame;
      simpl.
    + rewrite app_nil_r. reflexivity.
    + rewrite IH. simpl. rewrite <- app_assoc. reflexivity.
  - intros mol frame. unfold read_molecule.
    pose proof (read_bonds_atoms (mol_bonds mol)
                  (read_atoms mol frame, [])) as Hbonds.
    destruct (foldl _ (read_atoms mol frame, []) (mol_bonds mol))
      as [frame' warnings]. simpl in Hbonds |- *.
    rewrite <- Hbonds. apply read_stereos_atoms.
Qed.

End Read.

Section Stereo.
Context `{PeriodicTable} `{Toolkit}.

(** C8.  With exactly three neighbours, or with a fourth neighbour that
    is a hydrogen, the stereocenter is created with the first and the
    fourth vertex swapped: the implicit hydrogen, or the hydrogen, comes
    first; otherwise the vertices keep their order. *)
Theorem create_stereo_tetrahedron_swaps (frame : Frame) (center : nat)
    (a0 a1 a2 : nat) (rest : list nat) (parity : string) :
  let v4 := match rest with
            | a3 :: _ => AtomId a3
            | [] => IXA_ATOMID_IMPLICIT_H
            end in
  let hydrogen_last :=
    match rest with
    | a3 :: _ => mol_atomic_number frame a3 = 1
    | [] => True
    end in
  (hydrogen_last ->
   create_stereo_tetrahedron frame center (a0 :: a1 :: a2 :: rest) parity
   = Ok (IXA_CreateStereoTetrahedron (AtomId center)
           v4 (AtomId a1) (AtomId a2) (AtomId a0) (parity_of parity)))
  /\ (~ hydrogen_last ->
      create_stereo_tetrahedron frame center (a0 :: a1 :: a2 :: rest)
        parity
      = Ok (IXA_CreateStereoTetrahedron (AtomId center)
              (AtomId a0) (AtomId a1) (AtomId a2) v4 (parity_of parity))).
Proof.
  unfold create_stereo_tetrahedron.
  destruct rest as [|a3 rest]; simpl.
  - split; [reflexivity | tauto].
  - destruct (Z.eqb_spec (mol_atomic_number frame a3) 1) as [Heq|Hne].
    + split; [reflexivity | tauto].
    + split; [tauto | reflexivity].
Qed.
End Stereo.

(** *** forward *)

(** What [break_line] gives is the first line of [lines_from]; the other
    lines are the lines of what follows the line feed. *)
Lemma lines_from_break_line (pos : nat) (s : string) :
  match break_line s with
  | (line, Some rest) =>
      lines_from pos s
      = (pos, line) :: lines_from (pos + String.length line + 1) rest
      /\ (String.length rest < String.length s)%nat
  | (line, None) => lines_from pos s = [(pos, line)]
  end.
Proof.
  revert pos. induction s as [|c s IH]; intros pos; simpl.
  - reflexivity.
  - destruct (Ascii.eqb c (ascii_of_nat 10)).
    + simpl. split; [|lia]. do 2 f_equal. lia.
    + specialize (IH (S pos)).
      destruct (break_line s) as [line [rest|]]; simpl.
      * destruct IH as [-> Hlen]. split; [|lia]. do 2 f_equal. lia.
      * rewrite IH. reflexivity.
Qed.

Lemma forward_loop_post (fuel : nat) (file : TextFile) :
  (String.length (unread file) + 2 <= fuel)%nat ->
  exists r file',
    forward_loop fuel file = Some (r, file') /\ forward_post file r file'.
Proof.
  revert file. induction fuel as [|fuel IH]; intros file Hfuel; [lia|].
  simpl. unfold unread_lines, forward_post at 1.
  destruct (eof file) eqn:Heof.
  { exists None, file. split; [reflexivity|].
    unfold forward_post, unread_lines. rewrite Heof. split; [constructor|].
    reflexivity. }
  unfold readline. rewrite Heof.
  pose proof (lines_from_break_line (tellpos file) (unread file)) as Hlines.
  destruct (break_line (unread file)) as [line [rest|]].
  - destruct Hlines as [Hlines Hlen].
    destruct (contains "InChI=" line) eqn:Hline.
    + eexists _, _. split; [reflexivity|].
      unfold forward_post, unread_lines. rewrite Heof. simpl.
      exists [], line, (lines_from (tellpos file + String.length line + 1) rest).
      repeat split; [exact Hlines | exact Hline | constructor].
    + destruct (IH {| unread := rest;
                      tellpos := tellpos file + String.length line + 1;
                      eof := false |}) as (r & file' & Hloop & Hpost).
      { simpl. lia. }
      exists r, file'. split; [exact Hloop|].
      unfold forward_post, unread_lines in Hpost |- *. simpl in Hpost.
      rewrite Heof, Hlines.
      destruct r as [pos|].
      * destruct Hpost as (skipped & l & after & Heq & Hl & Hskipped & Hafter).
        exists ((tellpos file, line) :: skipped), l, after.
        rewrite Heq. repeat split; try assumption.
        constructor; assumption.
      * destruct Hpost as [Hall Hend]. split; [|exact Hend].
        constructor; assumption.
  - destruct (contains "InChI=" line) eqn:Hline.
    + eexists _, _. split; [reflexivity|].
      unfold forward_post, unread_lines. rewrite Heof. simpl.
      exists [], line, []. repeat split; [exact Hlines | exact Hline | constructor].
    + destruct fuel as [|fuel]; [lia|]. simpl.
      eexists _, _. split; [reflexivity|].
      unfold forward_post, unread_lines. rewrite Heof, Hlines. simpl.
      split; [|reflexivity]. repeat constructor. exact Hline.
Qed.

(** C10.  [forward] returns: with the position of the first line not read
    yet that contains "InChI=", having read the lines before it, none of
    which contains it, and that line; or with no position, when no line
    not read yet contains it, at the end of the file.  So it returns no
    position exactly when no line left contains "InChI=". *)
Theorem forward_finds_next_marker (file : TextFile) :
  exists r file',
    forward file = Some (r, file')
    /\ forward_post file r file'
    /\ (r = None
        <-> Forall (fun l => has_marker l = false) (unread_lines file)).
Proof.
  destruct (forward_loop_post (S (S (String.length (unread file)))) file)
    as (r & file' & Hloop & Hpost); [lia|].
  exists r, file'. split; [exact Hloop|]. split; [exact Hpost|].
  destruct r as [pos|]; simpl in Hpost.
  - split; [discriminate|]. intros Hall.
    destruct Hpost as (skipped & line & rest & Heq & Hline & _ & _).
    rewrite Heq in Hall. apply Forall_app in Hall as [_ Hall].
    apply Forall_cons in Hall as [Hhere _].
    unfold has_marker in Hhere. simpl in Hhere. congruence.
  - split; [intros _; apply Hpost | reflexivity].
Qed.

Lemma prefix_short (s t : string) :
  String.prefix s t = true -> (String.length t <= String.length s)%nat ->
  t = s.
Proof.
  revert t. induction s as [|a s IH]; intros [|b t]; simpl;
    try reflexivity; try discriminate; try lia.
  destruct (ascii_dec a b) as [->|]; [|discriminate].
  intros Hprefix Hlen. f_equal. apply IH; [exact Hprefix | lia].
Qed.

#[local] Arguments String.prefix : simpl never.
#[local] Arguments check_for_errors : simpl never.

Section Write.
Context `{PeriodicTable} `{Toolkit}.

(** *** What [run] and [write_next] leave behind *)


Lemma run_call (c : ixa_call) (todo : list action) :
  run (Call c :: todo)
  = let '(warnings, checked) := check_for_errors (ixa_status c) in
    match checked with
    | Err e => (Called c :: (Warned <$> warnings), Err (ChemfilesError e))
    | Ok _ =>
        let '(events, r) := run todo in
        (Called c :: (Warned <$> warnings) ++ events, r)
    end.
Proof. reflexivity. Qed.

Lemma run_warn (w : warning) (todo : list action) :
  run (Warn w :: todo)
  = let '(events, r) := run todo in (Warned w :: events, r).
Proof. reflexivity. Qed.

Lemma run_throw (x : exception) (todo : list action) :
  run (Throw x :: todo) = ([], Err x).
Proof. reflexivity. Qed.








(** *** Distances and lines *)









(** *** A frame and the same frame without one chirality property *)

Lemma create_atom_without (atom : Atom) (pos : Vector3D) :
  create_atom (without_property "chirality" atom) pos
  = create_atom atom pos.
Proof. reflexivity. Qed.













(** *** A write that nothing stops *)



(** What [write_stereo] throws. *)
Lemma write_stereo_throws (frame : Frame) (adj : list (list nat))
    (i : nat) (x : exception) :
  Throw x ∈ write_stereo frame adj i ->
  x = StdOutOfRange
  /\ (2 < length (adj !!! i))%nat
  /\ exists atom, atoms frame !! i = Some atom
                  /\ get_string "chirality" atom = Some "tetrahedron".
Proof.
  unfold write_stereo.
  destruct (atoms frame !! i) as [atom|]; [|intros Hin; inversion Hin].
  destruct (get_string "chirality" atom) as [chirality|] eqn:Hget;
    simpl default; [|intros Hin; inversion Hin].
  destruct (String.prefix "tetrahedron" chirality) eqn:Hprefix;
    [|intros Hin; inversion Hin].
  destruct (Nat.leb_spec (length (adj !!! i)) 2) as [|Hadj].
  { intros Hin. apply list_elem_of_singleton in Hin. discriminate. }
  destruct (Nat.ltb_spec (String.length chirality) 12) as [Hlen|Hlen].
  - intros Hin. apply list_elem_of_singleton in Hin. injection Hin as ->.
    split; [reflexivity|]. split; [exact Hadj|]. exists atom.
    split; [reflexivity|]. rewrite Hget. f_equal.
    apply prefix_short; [exact Hprefix | simpl; lia].
  - unfold create_stereo_tetrahedron.
    destruct (adj !!! i) as [|a0 [|a1 [|a2 rest]]]; simpl in Hadj;
      try lia.
    destruct (_ || _); intros Hin; apply list_elem_of_singleton in Hin;
      discriminate.
Qed.


End Write.

(** *** The theorems on the sample frames *)

Lemma get_atom_sets_what_differs_witness :
  properties (@get_atom sample_table two_hydrogens) !! "hydrogen_count"
  = Some (DOUBLE (inject_Z 2))
  /\ properties (@get_atom sample_table two_hydrogens) !! "mass" = None.
Proof.
  pose proof (@get_atom_sets_what_differs sample_table two_hydrogens)
    as (_ & _ & _ & _ & Hcount & _ & _ & Hother & _).
  split; [exact Hcount|].
  apply Hother; discriminate.
Defined.

Lemma create_stereo_tetrahedron_swaps_witness :
  @create_stereo_tetrahedron sample_table quiet_toolkit two_neighbours
    0 [1; 2; 0]%nat "odd"
  = Ok (IXA_CreateStereoTetrahedron (AtomId 0) IXA_ATOMID_IMPLICIT_H
          (AtomId 2) (AtomId 0) (AtomId 1) IXA_STEREO_PARITY_ODD)
  /\ @create_stereo_tetrahedron sample_table quiet_toolkit two_neighbours
      0 [0; 0; 0; 1]%nat "even"
    = Ok (IXA_CreateStereoTetrahedron (AtomId 0) (AtomId 1)
            (AtomId 0) (AtomId 0) (AtomId 0) IXA_STEREO_PARITY_EVEN)
  /\ @create_stereo_tetrahedron sample_table quiet_toolkit two_neighbours
      0 [1; 2; 0; 0]%nat "none"
    = Ok (IXA_CreateStereoTetrahedron (AtomId 0) (AtomId 1)
            (AtomId 2) (AtomId 0) (AtomId 0) IXA_STEREO_PARITY_NONE).
Proof.
  split; [|split].
  - apply (proj1 (@create_stereo_tetrahedron_swaps sample_table
                    quiet_toolkit two_neighbours 0 1 2 0 [] "odd")%nat).
    exact I.
  - apply (proj1 (@create_stereo_tetrahedron_swaps sample_table
                    quiet_toolkit two_neighbours 0 0 0 0 [1] "even")%nat).
    reflexivity.
  - apply (proj2 (@create_stereo_tetrahedron_swaps sample_table
                    quiet_toolkit two_neighbours 0 1 2 0 [0] "none")%nat).
    vm_compute. discriminate.
Defined.



(** The converse does not hold, and the claim does not say it does: atoms
    on a line that are one apart are a degenerate geometry, and the test
    of the code, which is on the distances to the atom 0, fails. *)
Example collinear_is_not_zero_dimensions :
  euclidean on_a_line
  /\ degenerate on_a_line
  /\ is_zero_dimensions on_a_line = false.
Proof.
  split; [|split; [|reflexivity]].
  - intros i j p q Hp Hq.
    destruct i as [|[|[|i]]]; simpl in Hp; try discriminate;
      injection Hp as <-;
      destruct j as [|[|[|j]]]; simpl in Hq; try discriminate;
      injection Hq as <-; vm_compute; (split; [discriminate|reflexivity]).
  - right. exists (1, 0, 0)%Q. split; [vm_compute; discriminate|].
    intros p0 i p [= <-] Hp.
    destruct i as [|[|[|i]]]; simpl in Hp; try discriminate;
      injection Hp as <-; vm_compute; discriminate.
Qed.


(** The write of the sample frame, run. *)
Example write_next_two_neighbours :
  @write_next sample_table quiet_toolkit two_neighbours
  = ([Called (IXA_CreateAtom (Some 6) origin None (Some 0));
      Called (IXA_CreateAtom (Some 1) origin None (Some 0));
      Called (IXA_CreateAtom (Some 1) origin None (Some 0));
      Called (IXA_CreateBond 0 1 (Some IXA_BOND_TYPE_SINGLE));
      Called (IXA_CreateBond 0 2 (Some IXA_BOND_TYPE_SINGLE));
      Warned under_connected;
      Printed "InChI=1S//"; Printed "AuxInfo=1/0/"],
     Ok ()).
Proof. vm_compute. reflexivity. Qed.

(** [forward] on a file of three lines, the second of which is an
    identifier, and on a file without identifier. *)
Example forward_skips_to_marker :
  forward {| unread := "x" +:+ newline +:+ "InChI=1S/CH4" +:+ newline
                       +:+ "rest";
             tellpos := 0; eof := false |}
  = Some (Some 2%nat, {| unread := "rest"; tellpos := 15; eof := false |}).
Proof. vm_compute. reflexivity. Qed.

Example forward_reaches_end :
  forward {| unread := "x" +:+ newline +:+ "y" +:+ newline;
             tellpos := 0; eof := false |}
  = Some (None, {| unread := EmptyString; tellpos := 4; eof := true |}).
Proof. vm_compute. reflexivity. Qed.

End InChISpec.

(** * Further properties *)

(** ** The token parser, continued *)
Module ParseMore.
Import Parse.

(** The limits of a narrower type lie within those of a wider type of the
    same signedness. *)
Lemma limits_within (Small Large : int_type) :
  is_signed Small = is_signed Large ->
  0 < sizeof Small < sizeof Large ->
  numeric_limits_min Large <= numeric_limits_min Small
  /\ numeric_limits_min Small <= 0
  /\ 0 <= numeric_limits_max Small
  /\ numeric_limits_max Small <= numeric_limits_max Large.
Proof.
  intros Hs [Hlo Hhi].
  assert (0 < 2 ^ (bits Small - 1))
    by (apply Z.pow_pos_nonneg; unfold bits; lia).
  assert (0 < 2 ^ bits Small)
    by (apply Z.pow_pos_nonneg; unfold bits; lia).
  assert (2 ^ (bits Small - 1) <= 2 ^ (bits Large - 1))
    by (apply Z.pow_le_mono_r; unfold bits; lia).
  assert (2 ^ bits Small <= 2 ^ bits Large)
    by (apply Z.pow_le_mono_r; unfold bits; lia).
  unfold numeric_limits_min, numeric_limits_max. rewrite <- Hs.
  destruct (is_signed Small); lia.
Qed.

(** X1.  From a wider type of the same signedness, [convert_integer] is
    exact on every value that is not below the minimum of the narrow type:
    it returns the value itself when the value is at most the maximum, and
    throws the out-of-range error otherwise. *)
Theorem convert_integer_exact (Small Large : int_type) (value : Z) :
  is_signed Small = is_signed Large ->
  0 < sizeof Small < sizeof Large ->
  in_range Large value ->
  numeric_limits_min Small <= value ->
  convert_integer Small Large value
  = if value <=? numeric_limits_max Small then Ok value
    else Err (OutOfRangeThisType value).
Proof.
  intros Hs Hsz Hlarge Hmin.
  destruct (limits_within Small Large Hs Hsz) as (Hmm & Hm0 & H0m & HMM).
  unfold convert_integer.
  destruct (Z.ltb_spec (sizeof Small) (sizeof Large)) as [_|]; [|lia].
  rewrite (ParseSpec.static_cast_id Large) by (unfold in_range; lia).
  destruct (Z.gtb_spec value (numeric_limits_max Small)),
    (Z.leb_spec value (numeric_limits_max Small)); try lia.
  - reflexivity.
  - rewrite ParseSpec.static_cast_id by (unfold in_range; lia).
    reflexivity.
Qed.

Lemma convert_integer_exact_witness :
  convert_integer int16_t int64_t (-5) = Ok (-5)
  /\ convert_integer uint8_t uint64_t 256 = Err (OutOfRangeThisType 256).
Proof.
  split.
  - apply (convert_integer_exact int16_t int64_t (-5)).
    + reflexivity.
    + simpl. lia.
    + vm_compute. split; discriminate.
    + vm_compute. discriminate.
  - apply (convert_integer_exact uint8_t uint64_t 256).
    + reflexivity.
    + simpl. lia.
    + vm_compute. split; discriminate.
    + vm_compute. discriminate.
Defined.

Lemma check_parse_errors_in_range input type T value v :
  check_parse_errors input type T value = Ok v -> in_range T v.
Proof.
  unfold check_parse_errors, in_range.
  destruct value as [w|]; [|discriminate].
  destruct (Z.leb_spec (numeric_limits_min T) w),
    (Z.leb_spec w (numeric_limits_max T)); simpl; try discriminate.
  intros [= <-]. lia.
Qed.

Lemma parse_uint64_in_range (input : string) (v : Z) :
  parse_uint64 input = Ok v -> in_range uint64_t v.
Proof.
  unfold parse_uint64. destruct input as [|c rest]; [discriminate|].
  destruct (if Ascii.eqb c "+"%char then rest else String c rest);
    [discriminate|].
  apply check_parse_errors_in_range.
Qed.

(** X2.  For an unsigned type narrower than 64 bits, [parse<T>] never
    truncates: when it returns a value, that value is the one
    [parse<uint64_t>] read, and it is in the range of [T]. *)
Theorem parse_unsigned_never_truncates (T : int_type) (input : string)
    (v : Z) :
  is_signed T = false -> 0 < sizeof T < 8 ->
  parse_integer T input = Ok v ->
  parse_uint64 input = Ok v /\ in_range T v.
Proof.
  intros Hs Hsz. unfold parse_integer. rewrite Hs.
  destruct (parse_uint64 input) as [w|e] eqn:Hparse; [|discriminate].
  simpl. pose proof (parse_uint64_in_range _ _ Hparse) as Hw.
  assert (Hmin : numeric_limits_min T = 0)
    by (unfold numeric_limits_min; rewrite Hs; reflexivity).
  assert (Hw0 : 0 <= w) by (destruct Hw as [Hw0 _]; exact Hw0).
  assert (Hsize : 0 < sizeof T < sizeof uint64_t) by (simpl; lia).
  assert (Hlow : numeric_limits_min T <= w) by lia.
  destruct (limits_within T uint64_t Hs Hsize) as (Hmm & Hm0 & H0m & HMM).
  unfold convert_integer.
  destruct (Z.ltb_spec (sizeof T) (sizeof uint64_t)) as [_|Hge]; [|lia].
  rewrite (ParseSpec.static_cast_id uint64_t) by (unfold in_range; lia).
  destruct (Z.gtb_spec w (numeric_limits_max T)); [discriminate|].
  rewrite ParseSpec.static_cast_id by (unfold in_range; lia).
  intros [= <-]. split; [reflexivity|].
  unfold in_range. lia.
Qed.

Lemma parse_unsigned_never_truncates_witness :
  parse_uint64 "255" = Ok 255 /\ in_range uint8_t 255.
Proof.
  apply (parse_unsigned_never_truncates uint8_t "255" 255).
  - reflexivity.
  - simpl. lia.
  - reflexivity.
Defined.

(** *** What [next] consumes *)

Lemma append_nil_l (t : string) : EmptyString +:+ t = t.
Proof. reflexivity. Qed.

Lemma append_cons (c : ascii) (s t : string) :
  String c s +:+ t = String c (s +:+ t).
Proof. reflexivity. Qed.

Lemma string_take_drop (n : nat) (s : string) :
  string_take n s +:+ string_drop n s = s.
Proof.
  revert s. induction n as [|n IH]; intros [|c s]; simpl; try reflexivity.
  rewrite append_cons, IH. reflexivity.
Qed.

Lemma all_chars_take_leading (p : ascii -> bool) (s : string) :
  all_chars p (string_take (leading p s) s) = true.
Proof.
  induction s as [|c s IH]; simpl; [reflexivity|].
  destruct (p c) eqn:Hc; simpl; [|reflexivity].
  rewrite Hc. exact IH.
Qed.

Lemma take_leading_nonempty (p : ascii -> bool) (s : string) :
  leading p s <> O -> string_take (leading p s) s <> EmptyString.
Proof.
  destruct s as [|c s]; simpl; [congruence|].
  destruct (p c); [discriminate | congruence].
Qed.

Lemma length_take_leading (p : ascii -> bool) (s : string) :
  String.length (string_take (leading p s) s) = leading p s.
Proof.
  induction s as [|c s IH]; simpl; [reflexivity|].
  destruct (p c); simpl; [rewrite IH|]; reflexivity.
Qed.

Lemma length_append (s t : string) :
  String.length (s +:+ t) = (String.length s + String.length t)%nat.
Proof.
  induction s as [|c s IH]; [reflexivity|].
  rewrite append_cons. simpl. rewrite IH. reflexivity.
Qed.

Lemma append_assoc (s t u : string) : (s +:+ t) +:+ u = s +:+ t +:+ u.
Proof.
  induction s as [|c s IH]; [reflexivity|].
  rewrite !append_cons, IH. reflexivity.
Qed.

Lemma string_drop_append (s t : string) :
  string_drop (String.length s) (s +:+ t) = t.
Proof.
  induction s as [|c s IH].
  - rewrite append_nil_l. destruct t; reflexivity.
  - rewrite append_cons. simpl. exact IH.
Qed.

Lemma leading_all (p : ascii -> bool) (s : string) :
  leading p s = String.length s <-> all_chars p s = true.
Proof.
  induction s as [|c s IH]; simpl; [tauto|].
  destruct (p c); simpl.
  - rewrite <- IH. lia.
  - split; [lia | discriminate].
Qed.

Lemma leading_le (p : ascii -> bool) (s : string) :
  (leading p s <= String.length s)%nat.
Proof.
  induction s as [|c s IH]; simpl; [lia|]. destruct (p c); lia.
Qed.

Lemma string_drop_all (s : string) :
  string_drop (String.length s) s = EmptyString.
Proof. induction s as [|c s IH]; simpl; [reflexivity | exact IH]. Qed.

(** What is left after the leading characters that satisfy [p] is empty
    only if all the characters satisfy [p]. *)
Lemma drop_leading_empty (p : ascii -> bool) (s : string) :
  string_drop (leading p s) s = EmptyString -> all_chars p s = true.
Proof.
  induction s as [|c s IH]; simpl; [reflexivity|].
  destruct (p c); simpl; [exact IH | discriminate].
Qed.

(** What a call of [next] that returns has consumed: whitespace and the
    token, and nothing else. *)
Lemma next_consumes (it it' : tokens_iterator) (token : string) :
  next it = Ok (token, it') ->
  initial_start_ it' = initial_start_ it
  /\ exists skipped,
       all_chars is_whitespace skipped = true
       /\ chars (input_ it) = skipped +:+ token +:+ chars (input_ it')
       /\ data (input_ it')
          = (data (input_ it) + String.length skipped
             + String.length token)%nat.
Proof.
  unfold next, substr. simpl.
  set (s := chars (input_ it)).
  set (s1 := string_drop (leading is_whitespace s) s).
  destruct (Nat.eqb_spec (leading not_whitespace s1) 0) as [|Hsize];
    [discriminate|].
  intros [= <- <-]. simpl. split; [reflexivity|].
  exists (string_take (leading is_whitespace s) s).
  split; [apply all_chars_take_leading|]. split.
  - fold s1. rewrite !string_take_drop. reflexivity.
  - rewrite !length_take_leading. fold s1. lia.
Qed.

(** X3.  A token [next] returns is not empty and holds no whitespace, and
    the input is: whitespace, the token, and the input of the iterator
    after the call, whose count is one more; no character is lost. *)
Theorem next_token (it it' : tokens_iterator) (token : string) :
  next it = Ok (token, it') ->
  token <> EmptyString
  /\ all_chars not_whitespace token = true
  /\ count_ it' = (count_ it + 1)%nat
  /\ initial_start_ it' = initial_start_ it
  /\ exists skipped,
       all_chars is_whitespace skipped = true
       /\ chars (input_ it) = skipped +:+ token +:+ chars (input_ it')
       /\ data (input_ it')
          = (data (input_ it) + String.length skipped
             + String.length token)%nat.
Proof.
  intros Hnext.
  destruct (next_consumes it it' token Hnext) as [Hstart Hparts].
  split; [|split; [|split; [|split; [exact Hstart | exact Hparts]]]];
    revert Hnext; clear; unfold next, substr; simpl;
    (destruct (_ =? 0)%nat eqn:Hsize; [discriminate|]);
    apply Nat.eqb_neq in Hsize; intros [= <- <-]; simpl.
  - apply take_leading_nonempty, Hsize.
  - apply all_chars_take_leading.
  - reflexivity.
Qed.

Lemma next_token_witness :
  "ab" <> EmptyString
  /\ all_chars not_whitespace "ab" = true
  /\ 1%nat = (0 + 1)%nat
  /\ 0%nat = 0%nat
  /\ exists skipped,
       all_chars is_whitespace skipped = true
       /\ "  ab c" = skipped +:+ "ab" +:+ " c"
       /\ 4%nat = (0 + String.length skipped + String.length "ab")%nat.
Proof.
  apply (next_token
           (tokens_iterator_new {| data := 0; chars := "  ab c" |})
           {| input_ := {| data := 4; chars := " c" |};
              initial_start_ := 0; count_ := 1 |}
           "ab").
  reflexivity.
Defined.

(** When [next] throws. *)
Lemma next_err (it : tokens_iterator) :
  (forall e, next it = Err e ->
             e = TooFewValues (count_ it + 1) (count_ it))
  /\ (is_ok (next it) = false
      <-> all_chars is_whitespace (chars (input_ it)) = true).
Proof.
  split.
  - unfold next. intros e. destruct (_ =? _)%nat; [|discriminate].
    intros [= <-]. reflexivity.
  - pose proof (ParseSpec.next_fields it) as Hnext.
    pose proof (ParseSpec.fields_drop_whitespace (chars (input_ it)))
      as Hdrop.
    destruct (ParseSpec.drop_whitespace_starts_field (chars (input_ it)))
      as [Hempty | (c & s' & Hs & Hc)].
    + rewrite Hempty in Hdrop. simpl in Hdrop. rewrite <- Hdrop in Hnext.
      rewrite Hnext. simpl. split; [|reflexivity].
      intros _. apply drop_leading_empty, Hempty.
    + rewrite Hs, (ParseSpec.fields_first c s' Hc) in Hdrop.
      rewrite <- Hdrop in Hnext.
      destruct Hnext as (it' & -> & _). simpl.
      split; [discriminate|]. intros Hall.
      apply leading_all in Hall. rewrite Hall, string_drop_all in Hs.
      discriminate.
Qed.

(** X4.  [next] throws exactly when nothing but whitespace is left, and the
    error counts the tokens read so far: one more were expected. *)
Theorem next_fails_on_whitespace (it : tokens_iterator) :
  if all_chars is_whitespace (chars (input_ it))
  then next it = Err (TooFewValues (count_ it + 1) (count_ it))
  else is_ok (next it) = true.
Proof.
  destruct (next_err it) as [Herr Hiff].
  destruct (all_chars is_whitespace (chars (input_ it))).
  - destruct (next it) as [r|e].
    + destruct Hiff as [_ Hiff]. specialize (Hiff eq_refl). discriminate.
    + rewrite (Herr e eq_refl). reflexivity.
  - destruct (is_ok (next it)); [reflexivity|].
    destruct Hiff as [Hiff _]. specialize (Hiff eq_refl). discriminate.
Qed.

(** *** What [scan] returns *)

(** A successful [next] gives the first field. *)
Lemma next_ok_fields (it it' : tokens_iterator) (token : string) :
  next it = Ok (token, it') ->
  fields (chars (input_ it)) = token :: fields (chars (input_ it')).
Proof.
  intros Hnext. pose proof (ParseSpec.next_fields it) as Hspec.
  destruct (fields (chars (input_ it))) as [|t rest].
  - rewrite Hnext in Hspec. discriminate.
  - destruct Hspec as (it1 & Heq & Hrest & _).
    rewrite Hnext in Heq. injection Heq as <- <-. rewrite Hrest.
    reflexivity.
Qed.

Lemma scan_impl_ok {V} (args : list (string -> result V))
    (it it' : tokens_iterator) (values : list V) :
  scan_impl it args = Ok (values, it') ->
  (length args <= length (fields (chars (input_ it))))%nat
  /\ Forall2 (fun (pt : (string -> result V) * string) v =>
                pt.1 pt.2 = Ok v)
       (zip args (fields (chars (input_ it)))) values
  /\ fields (chars (input_ it'))
     = drop (length args) (fields (chars (input_ it)))
  /\ initial_start_ it' = initial_start_ it
  /\ exists consumed,
       chars (input_ it) = consumed +:+ chars (input_ it')
       /\ data (input_ it')
          = (data (input_ it) + String.length consumed)%nat.
Proof.
  revert it values. induction args as [|parse args IH]; intros it values.
  - simpl. intros [= <- <-]. repeat split; try constructor; try lia.
    exists EmptyString. split; [reflexivity | simpl; lia].
  - simpl. destruct (next it) as [[token it1]|e] eqn:Hnext;
      [|discriminate]. simpl.
    destruct (parse token) as [v|e] eqn:Hparse; [|discriminate]. simpl.
    destruct (scan_impl it1 args) as [[vs it2]|e] eqn:Hrest;
      [|discriminate]. simpl.
    intros [= <- <-].
    destruct (IH it1 vs Hrest) as (Hlen & Hall & Hfields & Hstart & Hcons).
    pose proof (next_ok_fields _ _ _ Hnext) as Hf. rewrite Hf. simpl.
    destruct (next_consumes _ _ _ Hnext)
      as (Hstart1 & skipped & _ & Hchars & Hdata).
    split; [lia|]. split; [constructor; assumption|].
    split; [exact Hfields|]. split; [congruence|].
    destruct Hcons as (consumed & Hc & Hd).
    exists (skipped +:+ token +:+ consumed). split.
    + rewrite Hchars, Hc, !append_assoc. reflexivity.
    + rewrite Hd, Hdata, !length_append. lia.
Qed.

(** X5.  When [scan] succeeds, the line has at least as many fields as the
    call has slots, the value of each slot is what its [parse] makes of the
    field at its position, and the count returned is the number of
    characters of the line up to the end of the last field parsed: what
    follows holds the other fields. *)
Theorem scan_ok {V} (line : string) (args : list (string -> result V))
    (values : list V) (n : nat) :
  scan line args = Ok (values, n) ->
  (length args <= length (fields line))%nat
  /\ Forall2 (fun (pt : (string -> result V) * string) v =>
                pt.1 pt.2 = Ok v)
       (zip args (fields line)) values
  /\ (n <= String.length line)%nat
  /\ fields (string_drop n line) = drop (length args) (fields line).
Proof.
  unfold scan.
  destruct (scan_impl _ args) as [[vs it']|e] eqn:Himpl; [|discriminate].
  intros [= <- <-].
  destruct (scan_impl_ok _ _ _ _ Himpl)
    as (Hlen & Hall & Hfields & Hstart & consumed & Hchars & Hdata).
  simpl in *. split; [exact Hlen|]. split; [exact Hall|].
  unfold read_count. rewrite Hstart, Hdata. simpl.
  rewrite Nat.sub_0_r, Hchars.
  split; [rewrite length_append; lia|].
  rewrite string_drop_append, Hfields, Hchars. reflexivity.
Qed.

Lemma scan_ok_witness :
  Forall2 (fun (pt : (string -> result value) * string) v =>
             pt.1 pt.2 = Ok v)
    (zip [int_slot int64_t; string_slot] (fields " 1   foo  bar"))
    [VInt 1; VString "foo"]
  /\ fields (string_drop 8 " 1   foo  bar") = ["bar"].
Proof.
  pose proof (scan_ok " 1   foo  bar" [int_slot int64_t; string_slot]
                [VInt 1; VString "foo"] 8 eq_refl)
    as (_ & Hall & _ & Hrest).
  split; [exact Hall | exact Hrest].
Defined.

(** X6.  [scan] succeeds whenever the line has a field for each slot and
    each of these fields parses: it gives the slots the values parsed, in
    order, whatever follows the last of these fields. *)
Theorem scan_succeeds {V} (line : string)
    (args : list (string -> result V)) (values : list V) :
  (length args <= length (fields line))%nat ->
  Forall2 (fun (pt : (string -> result V) * string) v => pt.1 pt.2 = Ok v)
    (zip args (fields line)) values ->
  exists n, scan line args = Ok (values, n).
Proof.
  intros Hlen Hall. unfold scan.
  enough (Himpl : forall it vs,
            (length args <= length (fields (chars (input_ it))))%nat ->
            Forall2 (fun (pt : (string -> result V) * string) v =>
                       pt.1 pt.2 = Ok v)
              (zip args (fields (chars (input_ it)))) vs ->
            exists it', scan_impl it args = Ok (vs, it')).
  { destruct (Himpl (tokens_iterator_new (StringView 0 line)) values
                Hlen Hall) as [it' ->].
    eexists. reflexivity. }
  clear. induction args as [|parse args IH]; intros it vs Hlen Hall.
  - simpl in Hall. inversion Hall. subst. exists it. reflexivity.
  - pose proof (ParseSpec.next_fields it) as Hnext.
    destruct (fields (chars (input_ it))) as [|token rest];
      [simpl in Hlen; lia|].
    destruct Hnext as (it1 & Hnext & Hrest & _).
    simpl in Hall. inversion Hall as [|pt v l vs' Hhead Htail]. subst.
    simpl in Hhead.
    destruct (IH it1 vs') as [it2 Himpl].
    + simpl in Hlen. lia.
    + exact Htail.
    + exists it2. simpl. rewrite Hnext. simpl. rewrite Hhead. simpl.
      rewrite Himpl. reflexivity.
Qed.

Lemma scan_succeeds_witness :
  exists n,
    scan "4 5 trailing" [int_slot int32_t; int_slot uint8_t]
    = Ok ([VInt 4; VInt 5], n).
Proof.
  apply (scan_succeeds "4 5 trailing" [int_slot int32_t; int_slot uint8_t]
           [VInt 4; VInt 5]).
  - vm_compute. lia.
  - change (fields "4 5 trailing") with ["4"; "5"; "trailing"].
    repeat constructor.
Defined.

(** X7.  The error of [scan] is the error of the first field that does not
    parse: when the fields before the field [i] parse and the field [i]
    does not, [scan] throws the error of that parse, wrapped with the
    line. *)
Theorem scan_first_parse_error {V} (line : string)
    (args : list (string -> result V)) (i : nat)
    (parse : string -> result V) (token : string) (e : Error) :
  args !! i = Some parse -> fields line !! i = Some token ->
  parse token = Err e ->
  (forall j p t, (j < i)%nat -> args !! j = Some p ->
                 fields line !! j = Some t -> is_ok (p t)) ->
  scan line args = Err (WhileReading line e).
Proof.
  intros Hp Ht He Hbefore. unfold scan.
  enough (Himpl : forall it,
            fields (chars (input_ it)) = fields line ->
            scan_impl it args = Err e).
  { rewrite Himpl; reflexivity. }
  revert Hp Ht Hbefore. generalize (fields line) as fs. clear line.
  revert i. induction args as [|p0 args IH]; intros i fs Hp Ht Hbefore it Hfs;
    [discriminate|].
  pose proof (ParseSpec.next_fields it) as Hnext. rewrite Hfs in Hnext.
  destruct fs as [|t0 rest]; [destruct i; discriminate|].
  destruct Hnext as (it1 & Hnext & Hrest & _).
  simpl. rewrite Hnext. simpl.
  destruct i as [|i].
  - simpl in Hp, Ht. injection Hp as ->. injection Ht as ->.
    rewrite He. reflexivity.
  - pose proof (Hbefore O p0 t0 ltac:(lia) eq_refl eq_refl) as Hfirst.
    destruct (p0 t0) as [v|e0]; [|contradiction]. simpl.
    rewrite (IH i rest); [reflexivity | exact Hp | exact Ht | |exact Hrest].
    intros j p t Hj. apply (Hbefore (S j) p t). lia.
Qed.

Lemma scan_first_parse_error_witness :
  scan "1 x" [int_slot int64_t; int_slot int64_t; int_slot int64_t]
  = Err (WhileReading "1 x" (CanNotConvert "x" "int64_t")).
Proof.
  apply (scan_first_parse_error "1 x"
           [int_slot int64_t; int_slot int64_t; int_slot int64_t]
           1 (int_slot int64_t) "x").
  - reflexivity.
  - reflexivity.
  - reflexivity.
  - intros j p t Hj Hp Ht.
    assert (j = O) by lia. subst j.
    change (fields "1 x") with ["1"; "x"] in Ht.
    simpl in Hp, Ht. injection Hp as <-. injection Ht as <-.
    vm_compute. exact I.
Defined.

End ParseMore.

(** ** The chemical identifier codec, continued *)
Module InChIMore.
Import InChI.

(** *** check_for_errors *)

(** The string of the errors of a status is empty only if the status holds
    no error: every error adds its message and a line feed. *)
Lemma errors_empty (status : list (IXA_STATUS * string)) (acc : string) :
  String.length
    (foldl (fun errors (entry : IXA_STATUS * string) =>
              match entry.1 with
              | IXA_STATUS_ERROR => errors +:+ entry.2 +:+ newline
              | _ => errors
              end) acc status) = O
  <-> String.length acc = O /\ Forall (fun entry => is_error entry = false)
                                status.
Proof.
  revert acc. induction status as [|[severity msg] status IH]; intros acc;
    simpl.
  - split; [intros Hacc; split; [exact Hacc | constructor] | tauto].
  - rewrite IH, Forall_cons. unfold is_error at 2. simpl.
    destruct severity; try tauto.
    rewrite !ParseMore.length_append. simpl.
    split; [lia | intros (_ & [=] & _)].
Qed.

(** X8.  [check_for_errors] throws exactly when the status holds an entry
    of severity error, even one with an empty message, and whether it
    throws or not it forwards each warning of the status, and nothing
    else, as a warning. *)
Theorem check_for_errors_throws (status : list (IXA_STATUS * string)) :
  ((check_for_errors status).2 = Ok ()
   <-> Forall (fun entry => is_error entry = false) status)
  /\ (forall w,
        w ∈ (check_for_errors status).1
        <-> exists msg,
              (IXA_STATUS_WARNING, msg) ∈ status
              /\ w = Warning "InChI IXA: " ("'" +:+ msg +:+ "'")).
Proof.
  unfold check_for_errors. simpl. split.
  - match goal with
    | |- context [(String.length ?errors =? 0)%nat] =>
        destruct (Nat.eqb_spec (String.length errors) 0) as [Hlen|Hlen]
    end.
    + split; [|reflexivity]. intros _. apply errors_empty in Hlen.
      apply Hlen.
    + split; [discriminate|]. intros Hall. exfalso. apply Hlen.
      apply errors_empty. split; [reflexivity | exact Hall].
  - intros w. rewrite list_elem_of_omap. split.
    + intros ([severity msg] & Hin & Hw). simpl in Hw.
      destruct severity; try discriminate. injection Hw as <-.
      exists msg. split; [exact Hin | reflexivity].
    + intros (msg & Hin & ->). exists (IXA_STATUS_WARNING, msg).
      split; [exact Hin | reflexivity].
Qed.

Section ReadMore.
Context `{PeriodicTable} `{Toolkit}.

(** *** read_next *)

(** X10.  A bond read into a frame that has no bond between its two atoms
    is added with an order that [create_bond] writes back as the type it
    was read from; an aromatic bond comes back as a single bond. *)
Theorem read_bond_create_bond (b : ixa_bond) (frame : Frame)
    (warnings : list warning) :
  existsb (fun existing => same_bond (bond_atoms b) existing.1)
    (bonds frame) = false ->
  exists order,
    bonds (read_bond b (frame, warnings)).1
    = bonds frame ++ [(bond_atoms b, order)]
    /\ create_bond (bond_atoms b) order
       = IXA_CreateBond (bond_atoms b).1 (bond_atoms b).2
           (Some (if is_aromatic b then IXA_BOND_TYPE_SINGLE
                  else bond_type b)).
Proof.
  intros Hnew. unfold read_bond, is_aromatic, add_bond.
  destruct (bond_atoms b) as [i j] eqn:Hb. simpl in *.
  destruct (bond_type b); simpl; rewrite Hnew; simpl;
    eexists; (split; [reflexivity|]); reflexivity.
Qed.

Lemma read_stereo_positions (s : ixa_stereo) (frame : Frame) :
  positions (read_stereo s frame) = positions frame.
Proof.
  unfold read_stereo, read_central_atom, read_central_bond, add_bond.
  destruct (stereo_topology s), (stereo_parity s); try reflexivity;
    destruct (existsb _ _); reflexivity.
Qed.

Lemma read_bond_positions (b : ixa_bond) (st : Frame * list warning) :
  positions (read_bond b st).1 = positions st.1.
Proof.
  destruct st as [frame warnings]. unfold read_bond, add_bond.
  destruct (bond_type b); simpl; destruct (existsb _ _); reflexivity.
Qed.

(** X11.  Reading a molecule adds one atom and one position for each atom
    of the molecule, at the end and in order: a frame with as many
    positions as atoms stays so, and its size grows by the number of atoms
    of the molecule. *)
Theorem read_molecule_size (mol : IXA_MOL) (frame : Frame) :
  size (read_molecule mol frame).1
  = (size frame + length (mol_atoms mol))%nat
  /\ positions (read_molecule mol frame).1
     = positions frame ++ (atom_position <$> mol_atoms mol).
Proof.
  assert (Hatoms : forall l f,
            atoms (foldl (fun frame a =>
                            add_atom (get_atom a) (atom_position a) frame)
                     f l)
            = atoms f ++ (get_atom <$> l)
            /\ positions (foldl (fun frame a =>
                            add_atom (get_atom a) (atom_position a) frame)
                     f l)
               = positions f ++ (atom_position <$> l)).
  { induction l as [|a l IH]; intros f; simpl.
    - rewrite !app_nil_r. split; reflexivity.
    - destruct (IH (add_atom (get_atom a) (atom_position a) f))
        as [-> ->]. simpl. rewrite <- !app_assoc. split; reflexivity. }
  assert (Hbonds : forall l st,
            positions (foldl (fun st b => read_bond b st) st l).1
            = positions st.1).
  { induction l as [|b l IH]; intros st; simpl; [reflexivity|].
    rewrite IH. apply read_bond_positions. }
  assert (Hstereos : forall l f,
            positions (foldl (fun frame s => read_stereo s frame) f l)
            = positions f).
  { induction l as [|s l IH]; intros f; simpl; [reflexivity|].
    rewrite IH. apply read_stereo_positions. }
  split.
  - unfold size.
    pose proof (InChISpec.read_stereos_atoms) as Hst.
    unfold read_molecule.
    pose proof (InChISpec.read_bonds_atoms (mol_bonds mol)
                  (read_atoms mol frame, [])) as Hb.
    destruct (foldl _ (read_atoms mol frame, []) (mol_bonds mol))
      as [frame' warnings]. simpl in Hb |- *.
    rewrite (Forall2_length _ _ _ (Hst (mol_stereos mol) frame')), Hb.
    unfold read_atoms. rewrite (proj1 (Hatoms _ _)).
    rewrite length_app, length_fmap. reflexivity.
  - unfold read_molecule.
    pose proof (Hbonds (mol_bonds mol) (read_atoms mol frame, [])) as Hb.
    destruct (foldl _ (read_atoms mol frame, []) (mol_bonds mol))
      as [frame' warnings]. simpl in Hb |- *.
    rewrite Hstereos, Hb. unfold read_atoms. apply Hatoms.
Qed.

(** *** read_next and write_next together *)

Lemma parity_of_name (parity : IXA_STEREO_PARITY) :
  parity_of (parity_name parity) = parity.
Proof. destruct parity; reflexivity. Qed.

(** With three atoms or more, [create_stereo_tetrahedron] returns a
    stereocenter on the center it is given, of the parity named. *)
Lemma create_stereo_tetrahedron_ok (frame : Frame) (center : nat)
    (a : list nat) (parity : string) :
  (3 <= length a)%nat ->
  exists v1 v2 v3 v4,
    create_stereo_tetrahedron frame center a parity
    = Ok (IXA_CreateStereoTetrahedron (AtomId center) v1 v2 v3 v4
            (parity_of parity)).
Proof.
  intros Ha. unfold create_stereo_tetrahedron.
  destruct a as [|a0 [|a1 [|a2 rest]]]; simpl in Ha; try lia.
  destruct (_ || _); simpl; eauto.
Qed.

(** Past its three tests, the body of the loop of [write_next] is the call
    of [create_stereo_tetrahedron] on what follows the twelfth
    character. *)
Lemma write_stereo_past_tests (frame : Frame) (adj : list (list nat))
    (i : nat) (atom : Atom) (chirality : string) :
  atoms frame !! i = Some atom ->
  get_string "chirality" atom = Some chirality ->
  String.prefix "tetrahedron" chirality = true ->
  (3 <= length (adj !!! i))%nat ->
  (12 <= String.length chirality)%nat ->
  write_stereo frame adj i
  = match create_stereo_tetrahedron frame i (adj !!! i)
            (Parse.string_drop 12 chirality) with
    | Ok stereo => [Call stereo]
    | Err x => [Throw x]
    end.
Proof.
  intros Hatom Hchirality Hprefix Hadj Hlen.
  unfold write_stereo. rewrite Hatom, Hchirality. simpl default.
  rewrite Hprefix.
  destruct (Nat.leb_spec (length (adj !!! i)) 2); [lia|].
  destruct (Nat.ltb_spec (String.length chirality) 12); [lia|].
  reflexivity.
Qed.

(** X12.  For an atom of a frame of zero dimensions whose chirality
    property starts with "tetrahedron", is at least twelve characters long
    and which has three neighbours or more, the writer creates exactly one
    stereocenter, centered on the atom, with the parity that the
    characters from the thirteenth on name ("odd", "even", "none"; anything
    else is the unknown parity). *)
Theorem write_stereo_tetrahedron (frame : Frame) (adj : list (list nat))
    (i : nat) (atom : Atom) (chirality : string) :
  atoms frame !! i = Some atom ->
  get_string "chirality" atom = Some chirality ->
  String.prefix "tetrahedron" chirality = true ->
  (3 <= length (adj !!! i))%nat ->
  (12 <= String.length chirality)%nat ->
  exists v1 v2 v3 v4,
    write_stereo frame adj i
    = [Call (IXA_CreateStereoTetrahedron (AtomId i) v1 v2 v3 v4
               (parity_of (Parse.string_drop 12 chirality)))].
Proof.
  intros Hatom Hchirality Hprefix Hadj Hlen.
  rewrite (write_stereo_past_tests frame adj i atom chirality)
    by assumption.
  destruct (create_stereo_tetrahedron_ok frame i (adj !!! i)
              (Parse.string_drop 12 chirality) Hadj)
    as (v1 & v2 & v3 & v4 & ->).
  eauto.
Qed.

(** X13.  The parity of a tetrahedral stereocenter goes through the
    chirality property unchanged: in a frame as [read_next] leaves it after
    a stereocenter of tetrahedron topology, the writer creates for the
    central atom, when it has three neighbours or more, one stereocenter,
    with the parity that was read. *)
Theorem tetrahedron_parity_round_trip (s : ixa_stereo) (frame0 : Frame)
    (adj : list (list nat)) :
  stereo_topology s = IXA_STEREO_TOPOLOGY_TETRAHEDRON ->
  (stereo_central_atom s < size frame0)%nat ->
  (3 <= length (adj !!! stereo_central_atom s))%nat ->
  exists v1 v2 v3 v4,
    write_stereo (read_stereo s frame0) adj (stereo_central_atom s)
    = [Call (IXA_CreateStereoTetrahedron
               (AtomId (stereo_central_atom s)) v1 v2 v3 v4
               (stereo_parity s))].
Proof.
  intros Htopology Hsize Hadj.
  apply lookup_lt_is_Some_2 in Hsize as [atom0 Hatom0].
  assert (Hread : read_stereo s frame0
                  = set_atom_property (stereo_central_atom s) "chirality"
                      (STRING ("tetrahedron_"
                               +:+ parity_name (stereo_parity s)))
                      frame0).
  { unfold read_stereo, read_central_atom. rewrite Htopology.
    destruct (stereo_parity s); reflexivity. }
  rewrite Hread.
  rewrite (write_stereo_past_tests _ adj (stereo_central_atom s)
             (set "chirality"
                (STRING ("tetrahedron_"
                         +:+ parity_name (stereo_parity s))) atom0)
             ("tetrahedron_" +:+ parity_name (stereo_parity s))).
  - destruct (create_stereo_tetrahedron_ok
                (set_atom_property (stereo_central_atom s) "chirality"
                   (STRING ("tetrahedron_"
                            +:+ parity_name (stereo_parity s))) frame0)
                (stereo_central_atom s) (adj !!! stereo_central_atom s)
                (Parse.string_drop 12
                   ("tetrahedron_" +:+ parity_name (stereo_parity s)))
                Hadj)
      as (v1 & v2 & v3 & v4 & ->).
    exists v1, v2, v3, v4. do 3 f_equal.
    destruct (stereo_parity s); reflexivity.
  - simpl. rewrite list_lookup_alter_eq, Hatom0. reflexivity.
  - unfold get_string. simpl. rewrite lookup_insert_eq. reflexivity.
  - destruct (stereo_parity s); reflexivity.
  - exact Hadj.
  - destruct (stereo_parity s); simpl; lia.
Qed.

(** X14.  What [read_next] records for a stereocenter of antirectangle
    topology is not written: the writer creates no stereocenter for the
    central atom, gives no warning and does not throw. *)
Theorem antirectangle_is_not_written (s : ixa_stereo) (frame0 : Frame)
    (adj : list (list nat)) :
  stereo_topology s = IXA_STEREO_TOPOLOGY_ANTIRECTANGLE ->
  write_stereo (read_stereo s frame0) adj (stereo_central_atom s) = [].
Proof.
  intros Htopology.
  assert (Hread : read_stereo s frame0
                  = set_atom_property (stereo_central_atom s) "chirality"
                      (STRING ("antirectangle_"
                               +:+ parity_name (stereo_parity s)))
                      frame0).
  { unfold read_stereo, read_central_atom. rewrite Htopology.
    destruct (stereo_parity s); reflexivity. }
  rewrite Hread. unfold write_stereo. simpl atoms.
  rewrite list_lookup_alter_eq.
  destruct (atoms frame0 !! stereo_central_atom s) as [atom0|];
    [|reflexivity].
  simpl. unfold get_string. simpl. rewrite lookup_insert_eq. simpl.
  destruct (stereo_parity s); reflexivity.
Qed.

End ReadMore.

Lemma read_bond_create_bond_witness :
  exists order,
    bonds (read_bond {| bond_atoms := (0, 1)%nat;
                        bond_type := IXA_BOND_TYPE_AROMATIC |}
             (one_atom, [])).1
    = [((0, 1)%nat, order)]
    /\ create_bond (0, 1)%nat order
       = IXA_CreateBond 0 1 (Some IXA_BOND_TYPE_SINGLE).
Proof.
  apply (read_bond_create_bond
           {| bond_atoms := (0, 1)%nat;
              bond_type := IXA_BOND_TYPE_AROMATIC |} one_atom []).
  reflexivity.
Defined.

Lemma write_stereo_tetrahedron_witness :
  exists v1 v2 v3 v4,
    @write_stereo sample_table quiet_toolkit two_neighbours
      [[1; 2; 0]; [0]; [0]]%nat 0
    = [Call (IXA_CreateStereoTetrahedron (AtomId 0) v1 v2 v3 v4
               IXA_STEREO_PARITY_EVEN)].
Proof.
  apply (@write_stereo_tetrahedron sample_table quiet_toolkit
           two_neighbours [[1; 2; 0]; [0]; [0]]%nat 0
           (set "chirality" (STRING "tetrahedron_even")
              (@Atom_new sample_table "C"))
           "tetrahedron_even").
  - reflexivity.
  - vm_compute. reflexivity.
  - reflexivity.
  - simpl. lia.
  - simpl. lia.
Defined.

Lemma tetrahedron_parity_round_trip_witness :
  exists v1 v2 v3 v4,
    @write_stereo sample_table quiet_toolkit
      (read_stereo {| stereo_topology := IXA_STEREO_TOPOLOGY_TETRAHEDRON;
                      stereo_parity := IXA_STEREO_PARITY_ODD;
                      stereo_central_atom := 0;
                      stereo_central_bond := (0, 0)%nat |} two_neighbours)
      [[1; 2; 0]; [0]; [0]]%nat 0
    = [Call (IXA_CreateStereoTetrahedron (AtomId 0) v1 v2 v3 v4
               IXA_STEREO_PARITY_ODD)].
Proof.
  apply (@tetrahedron_parity_round_trip sample_table quiet_toolkit
           {| stereo_topology := IXA_STEREO_TOPOLOGY_TETRAHEDRON;
              stereo_parity := IXA_STEREO_PARITY_ODD;
              stereo_central_atom := 0;
              stereo_central_bond := (0, 0)%nat |} two_neighbours
           [[1; 2; 0]; [0]; [0]]%nat).
  - reflexivity.
  - unfold size. simpl. lia.
  - simpl. lia.
Defined.

Lemma antirectangle_is_not_written_witness :
  @write_stereo sample_table quiet_toolkit
    (read_stereo {| stereo_topology := IXA_STEREO_TOPOLOGY_ANTIRECTANGLE;
                    stereo_parity := IXA_STEREO_PARITY_EVEN;
                    stereo_central_atom := 0;
                    stereo_central_bond := (0, 0)%nat |} two_neighbours)
    [[1; 2; 0]; [0]; [0]]%nat 0
  = [].
Proof.
  apply (@antirectangle_is_not_written sample_table quiet_toolkit
           {| stereo_topology := IXA_STEREO_TOPOLOGY_ANTIRECTANGLE;
              stereo_parity := IXA_STEREO_PARITY_EVEN;
              stereo_central_atom := 0;
              stereo_central_bond := (0, 0)%nat |} two_neighbours
           [[1; 2; 0]; [0]; [0]]%nat).
  reflexivity.
Defined.


Section WriteMore.
Context `{PeriodicTable} `{Toolkit}.

(** *** How write_next fails *)

Lemma check_for_errors_format_error status e :
  (check_for_errors status).2 = Err e -> exists msg, e = FormatError msg.
Proof.
  unfold check_for_errors. simpl. destruct (_ =? _)%nat; [discriminate|].
  intros [= <-]. eauto.
Qed.

(** A run ends with the error of a call, or with what one of the steps
    throws. *)
Lemma run_err (todo : list action) (x : exception) :
  (run todo).2 = Err x ->
  (exists msg, x = ChemfilesError (FormatError msg)) \/ Throw x ∈ todo.
Proof.
  induction todo as [|[c|w|y] todo IH].
  - discriminate.
  - rewrite InChISpec.run_call.
    destruct (check_for_errors (ixa_status c)) as [warnings [[]|e]] eqn:Hc.
    + destruct (run todo) as [events r]. simpl in *. intros Hr.
      destruct (IH Hr) as [Hcall|Hthrow]; [left; exact Hcall|].
      right. right. exact Hthrow.
    + simpl. intros [= <-]. left.
      destruct (check_for_errors_format_error (ixa_status c) e)
        as [msg ->]; [rewrite Hc; reflexivity|]. eauto.
  - rewrite InChISpec.run_warn. destruct (run todo) as [events r].
    simpl in *. intros Hr.
    destruct (IH Hr) as [Hcall|Hthrow]; [left; exact Hcall|].
    right. right. exact Hthrow.
  - rewrite InChISpec.run_throw. simpl. intros [= <-]. right. left.
Qed.

(** X15.  [write_next] fails in two ways only: with the format error of
    [check_for_errors], when the toolkit reports an error, and with
    [std::out_of_range], and then only for a frame of zero dimensions that
    has an atom with three neighbours or more whose chirality property is
    "tetrahedron" and nothing more.  The [assert] of
    [create_stereo_tetrahedron] never fails. *)
Theorem write_next_failures (frame : Frame) (x : exception) :
  (write_next frame).2 = Err x ->
  (exists msg, x = ChemfilesError (FormatError msg))
  \/ (x = StdOutOfRange
      /\ is_zero_dimensions frame = true
      /\ exists i atom,
           atoms frame !! i = Some atom
           /\ get_string "chirality" atom = Some "tetrahedron"
           /\ (2 < length (adj_list frame !!! i))%nat).
Proof.
  unfold write_next.
  destruct (run (write_actions frame)) as [events [[]|y]] eqn:Hrun;
    [discriminate|].
  simpl. intros [= <-].
  destruct (run_err (write_actions frame) y) as [Hcall|Hthrow].
  { rewrite Hrun. reflexivity. }
  { left. exact Hcall. }
  right. unfold write_actions in Hthrow.
  rewrite !elem_of_app in Hthrow. destruct Hthrow as [Hin|[Hin|Hin]].
  - apply list_elem_of_fmap in Hin as ([atom pos] & Heq & _). discriminate.
  - apply list_elem_of_fmap in Hin as ([bond order] & Heq & _).
    discriminate.
  - destruct (is_zero_dimensions frame); [|inversion Hin].
    apply list_elem_of_In, in_flat_map in Hin as (i & _ & Hin).
    apply list_elem_of_In, InChISpec.write_stereo_throws in Hin
      as (-> & Hadj & atom & Hatom & Hget).
    split; [reflexivity|]. split; [reflexivity|]. eauto.
Qed.

Lemma run_prints_nothing (todo : list action) (line : string) :
  Printed line ∉ (run todo).1.
Proof.
  induction todo as [|[c|w|y] todo IH].
  - intros Hin. inversion Hin.
  - rewrite InChISpec.run_call.
    destruct (check_for_errors (ixa_status c)) as [warnings [[]|e]].
    + destruct (run todo) as [events r]. simpl in *. intros Hin.
      apply elem_of_cons in Hin as [[=]|Hin].
      apply elem_of_app in Hin as [Hin|Hin]; [|exact (IH Hin)].
      apply list_elem_of_fmap in Hin as (w & Hw & _). discriminate.
    + simpl. intros Hin. apply elem_of_cons in Hin as [[=]|Hin].
      apply list_elem_of_fmap in Hin as (w & Hw & _). discriminate.
  - rewrite InChISpec.run_warn. destruct (run todo) as [events r].
    simpl in *. intros Hin. apply elem_of_cons in Hin as [[=]|Hin].
    exact (IH Hin).
  - rewrite InChISpec.run_throw. intros Hin. inversion Hin.
Qed.

(** X16.  A write that fails prints nothing; a write that succeeds prints
    two lines, after everything else: the identifier and the auxiliary
    information the toolkit gives for the calls that were made. *)
Theorem write_next_prints (frame : Frame) :
  match (write_next frame).2 with
  | Err _ => forall line, Printed line ∉ (write_next frame).1
  | Ok _ =>
      exists events,
        (write_next frame).1
        = events ++ [Printed (ixa_get_strings (calls_of events)).1;
                     Printed (ixa_get_strings (calls_of events)).2]
        /\ forall line, Printed line ∉ events
  end.
Proof.
  unfold write_next.
  pose proof (run_prints_nothing (write_actions frame)) as Hnone.
  destruct (run (write_actions frame)) as [events [[]|y]]; simpl in *.
  - exists events. split; [reflexivity | exact Hnone].
  - exact Hnone.
Qed.

(** *** The adjacency list *)

Lemma adj_step (adj : list (list nat)) (b : Bond) (i j : nat) :
  (b.1 < length adj)%nat -> (b.2 < length adj)%nat ->
  j ∈ alter (fun l => l ++ [b.1]) b.2
        (alter (fun l => l ++ [b.2]) b.1 adj) !!! i
  <-> j ∈ adj !!! i \/ (i = b.1 /\ j = b.2) \/ (i = b.2 /\ j = b.1).
Proof.
  intros H1 H2.
  destruct (decide (b.2 = i)) as [<-|Hne2].
  - rewrite list_lookup_total_alter_eq by (rewrite length_alter; exact H2).
    rewrite elem_of_app, list_elem_of_singleton.
    destruct (decide (b.1 = b.2)) as [Heq|Hne1].
    + rewrite Heq at 1.
      rewrite list_lookup_total_alter_eq by exact H2.
      rewrite elem_of_app, list_elem_of_singleton. rewrite Heq. tauto.
    + rewrite list_lookup_total_alter_ne by exact Hne1.
      split; [intros [?|?]; [tauto | right; right; tauto] |].
      intros [?|[[Heq _]|[_ ?]]]; [tauto | congruence | tauto].
  - rewrite list_lookup_total_alter_ne by exact Hne2.
    destruct (decide (b.1 = i)) as [<-|Hne1].
    + rewrite list_lookup_total_alter_eq by exact H1.
      rewrite elem_of_app, list_elem_of_singleton.
      split; [intros [?|?]; tauto |].
      intros [?|[[_ ?]|[Heq _]]]; [tauto | tauto | congruence].
    + rewrite list_lookup_total_alter_ne by exact Hne1.
      split; [tauto|]. intros [?|[[Heq _]|[Heq _]]]; [tauto | | ];
        congruence.
Qed.

Lemma adj_fold (bs : list Bond) (adj : list (list nat)) (i j : nat) :
  Forall (fun b : Bond =>
            (b.1 < length adj)%nat /\ (b.2 < length adj)%nat) bs ->
  j ∈ foldl (fun adj (bond : Bond) =>
               alter (fun l => l ++ [bond.1]) bond.2
                 (alter (fun l => l ++ [bond.2]) bond.1 adj)) adj bs !!! i
  <-> j ∈ adj !!! i
      \/ exists b, b ∈ bs /\ ((i = b.1 /\ j = b.2) \/ (i = b.2 /\ j = b.1)).
Proof.
  revert adj. induction bs as [|b bs IH]; intros adj Hbs; simpl.
  - split; [tauto|]. intros [?|(b & Hin & _)]; [assumption|].
    inversion Hin.
  - apply Forall_cons in Hbs as [[H1 H2] Hbs].
    rewrite IH by (rewrite !length_alter; exact Hbs).
    rewrite (adj_step adj b i j H1 H2). split.
    + intros [[?|Hb]|(b' & Hin & Hb')]; [tauto | |].
      * right. exists b. split; [left | exact Hb].
      * right. exists b'. split; [right; exact Hin | exact Hb'].
    + intros [?|(b' & Hin & Hb')]; [tauto|].
      apply elem_of_cons in Hin as [->|Hin]; [tauto|].
      right. eauto.
Qed.

(** X17.  In a frame that keeps its invariants, the adjacency list of the
    writer lists for each atom the atoms it shares a bond with: [j] is in
    the list of [i] exactly when the frame has a bond between [i] and [j];
    so [j] is in the list of [i] exactly when [i] is in the list of
    [j]. *)
Theorem adj_list_neighbours (frame : Frame) (i j : nat) :
  well_formed frame ->
  (j ∈ adj_list frame !!! i
   <-> exists b : Bond,
         b ∈ (fst <$> bonds frame)
         /\ ((i = b.1 /\ j = b.2) \/ (i = b.2 /\ j = b.1)))
  /\ (j ∈ adj_list frame !!! i <-> i ∈ adj_list frame !!! j).
Proof.
  intros (_ & Hbonds & _).
  assert (Hadj : forall i j,
    j ∈ adj_list frame !!! i
    <-> exists b : Bond,
          b ∈ (fst <$> bonds frame)
          /\ ((i = b.1 /\ j = b.2) \/ (i = b.2 /\ j = b.1))).
  { clear i j. intros i j. unfold adj_list. rewrite adj_fold.
    - split; [|tauto]. intros [Hin|?]; [|assumption]. exfalso.
      destruct (decide (i < size frame)%nat) as [Hi|Hi].
      + rewrite lookup_total_replicate_2 in Hin by exact Hi.
        inversion Hin.
      + rewrite list_lookup_total_alt in Hin.
        rewrite lookup_ge_None_2 in Hin by (rewrite length_replicate; lia).
        inversion Hin.
    - rewrite length_replicate. exact Hbonds. }
  split; [apply Hadj|]. rewrite !Hadj.
  split; intros (b & Hin & Hb); exists b; tauto.
Qed.
End WriteMore.

Lemma write_next_failures_witness :
  (exists msg, StdOutOfRange = ChemfilesError (FormatError msg))
  \/ (StdOutOfRange = StdOutOfRange
      /\ @is_zero_dimensions bare_center = true
      /\ exists i atom,
           atoms bare_center !! i = Some atom
           /\ get_string "chirality" atom = Some "tetrahedron"
           /\ (2 < length (adj_list bare_center !!! i))%nat).
Proof.
  apply (@write_next_failures sample_table quiet_toolkit bare_center
           StdOutOfRange).
  vm_compute. reflexivity.
Defined.

Lemma adj_list_neighbours_witness :
  (2%nat ∈ adj_list two_neighbours !!! 0%nat
   <-> exists b : Bond,
         b ∈ (fst <$> bonds two_neighbours)
         /\ ((0%nat = b.1 /\ 2%nat = b.2) \/ (0%nat = b.2 /\ 2%nat = b.1)))
  /\ (2%nat ∈ adj_list two_neighbours !!! 0%nat
      <-> 0%nat ∈ adj_list two_neighbours !!! 2%nat).
Proof.
  apply (adj_list_neighbours two_neighbours 0 2).
  split; [reflexivity|]. split.
  - unfold size. simpl. repeat (constructor; [simpl; split; lia|]).
    constructor.
  - simpl. constructor; [|constructor; [|constructor]].
    + intros Hin. apply list_elem_of_singleton in Hin. discriminate.
    + intros Hin. inversion Hin.
Defined.

(** *** double_to_int *)

(** X18.  For a value in the range of [int], [double_to_int] gives an
    integer exactly when the value is that integer, and nothing exactly
    when the value is not a whole number: [create_atom] passes the mass and
    the charge of an atom to the toolkit only when they are whole
    numbers. *)
Theorem double_to_int_whole (value : Q) :
  (inject_Z (- 2 ^ 31) <= value)%Q -> (value < inject_Z (2 ^ 31))%Q ->
  (forall z, double_to_int value = Some z <-> (value == inject_Z z)%Q)
  /\ (double_to_int value = None
      <-> forall z, ~ (value == inject_Z z)%Q).
Proof.
  intros _ _.
  assert (Hsome : forall z,
            double_to_int value = Some z <-> (value == inject_Z z)%Q).
  { intros z. unfold double_to_int.
    pose proof (Qred_correct value) as Hred.
    destruct (Qred value) as [num den] eqn:Hq. cbn [Qnum Qden].
    destruct (den =? 1)%positive eqn:Hden;
      [apply Pos.eqb_eq in Hden as -> | apply Pos.eqb_neq in Hden].
    - split.
      + intros [= <-]. rewrite <- Hred. reflexivity.
      + intros Heq. f_equal. rewrite <- Hred in Heq.
        unfold Qeq in Heq. simpl in Heq. lia.
    - split; [discriminate|]. intros Heq. exfalso. apply Hden.
      apply Qred_complete in Heq. rewrite Hq in Heq.
      pose proof (gcd_Qred (inject_Z z)) as Hgcd.
      assert (Hden1 : Qden (Qred (inject_Z z)) = 1%positive).
      { pose proof (Qred_correct (inject_Z z)) as Hc.
        destruct (Qred (inject_Z z)) as [n d]. simpl in *.
        unfold Qeq in Hc. simpl in Hc.
        assert (Hdiv : (Z.pos d | n)) by (exists z; lia).
        assert (Hd : (Z.pos d | Z.gcd n (Z.pos d)))
          by (apply Z.gcd_greatest; [exact Hdiv | reflexivity]).
        rewrite Hgcd in Hd. apply Z.divide_1_r_nonneg in Hd; lia. }
      rewrite <- Heq in Hden1. simpl in Hden1. exact Hden1. }
  split; [exact Hsome|]. split.
  - intros Hnone z Heq. apply Hsome in Heq. congruence.
  - intros Hno. destruct (double_to_int value) as [z|] eqn:Hd;
      [|reflexivity].
    exfalso. apply (Hno z), Hsome. reflexivity.
Qed.

Lemma double_to_int_whole_witness :
  (forall z, double_to_int (12 # 1) = Some z <-> (12 # 1 == inject_Z z)%Q)
  /\ (double_to_int (12 # 1) = None
      <-> forall z, ~ (12 # 1 == inject_Z z)%Q).
Proof.
  apply (double_to_int_whole (12 # 1)).
  - vm_compute. discriminate.
  - reflexivity.
Defined.

(** *** forward, called again *)

(** The first line of a stream is at its position, the others further. *)
Lemma lines_from_head (pos : nat) (s : string) :
  exists line rest,
    lines_from pos s = (pos, line) :: rest
    /\ Forall (fun l : nat * string => (pos < l.1)%nat) rest.
Proof.
  revert pos. induction s as [|c s IH]; intros pos; simpl.
  - eexists _, _. split; [reflexivity | constructor].
  - destruct (IH (S pos)) as (line & rest & Hlines & Hrest).
    destruct (Ascii.eqb c (ascii_of_nat 10)).
    + eexists _, _. split; [reflexivity|]. rewrite Hlines.
      constructor; [simpl; lia|].
      eapply Forall_impl; [exact Hrest|]. simpl. intros l Hl. lia.
    + rewrite Hlines. eexists _, _. split; [reflexivity|].
      eapply Forall_impl; [exact Hrest|]. simpl. intros l Hl. lia.
Qed.

(** The positions of the lines of a stream increase. *)
Lemma lines_from_sorted (pos : nat) (s : string) skipped p line rest :
  lines_from pos s = skipped ++ (p, line) :: rest ->
  Forall (fun l : nat * string => (p < l.1)%nat) rest.
Proof.
  revert pos skipped. induction s as [|c s IH]; intros pos skipped; simpl.
  - destruct skipped as [|x [|y skipped]]; simpl; intros [= <- <- <-] ||
      intros [=]. constructor.
  - destruct (lines_from_head (S pos) s) as (l0 & r0 & Hlines & Hr0).
    destruct (Ascii.eqb c (ascii_of_nat 10)).
    + destruct skipped as [|x skipped]; simpl.
      * intros [= <- <- <-]. rewrite Hlines.
        constructor; [simpl; lia|].
        eapply Forall_impl; [exact Hr0|]. simpl. intros l Hl. lia.
      * intros [= _ Heq]. apply (IH (S pos) skipped), Heq.
    + rewrite Hlines. destruct skipped as [|x skipped]; simpl.
      * intros [= <- <- <-].
        eapply Forall_impl; [exact Hr0|]. simpl. intros l Hl. lia.
      * intros [= _ Heq].
        apply (IH (S pos) ((S pos, l0) :: skipped)).
        rewrite Hlines, Heq. reflexivity.
Qed.

(** X19.  Called again after it has found a line, [forward] finds a line
    further in the file: the positions it returns increase. *)
Theorem forward_positions_increase (file file1 file2 : TextFile)
    (p1 p2 : nat) :
  forward file = Some (Some p1, file1) ->
  forward file1 = Some (Some p2, file2) ->
  (p1 < p2)%nat.
Proof.
  intros Hfirst Hsecond.
  destruct (InChISpec.forward_loop_post
              (S (S (String.length (unread file)))) file)
    as (r & f & Hloop & Hpost); [lia|].
  unfold forward in Hfirst. rewrite Hfirst in Hloop.
  injection Hloop as <- <-.
  destruct (InChISpec.forward_loop_post
              (S (S (String.length (unread file1)))) file1)
    as (r & f & Hloop & Hpost2); [lia|].
  unfold forward in Hsecond. rewrite Hsecond in Hloop.
  injection Hloop as <- <-.
  destruct Hpost as (sk1 & l1 & rest1 & Hlines1 & _ & _ & Hrest1).
  destruct Hpost2 as (sk2 & l2 & rest2 & Hlines2 & _).
  unfold unread_lines in Hlines1.
  destruct (eof file); [destruct sk1; discriminate|].
  apply lines_from_sorted in Hlines1.
  rewrite <- Hrest1, Hlines2 in Hlines1.
  apply Forall_app in Hlines1 as [_ Hlines1].
  apply Forall_cons in Hlines1 as [Hp _]. exact Hp.
Qed.

Lemma forward_positions_increase_witness : (0 < 13)%nat.
Proof.
  apply (forward_positions_increase two_records
           {| unread := "InChI=1S/H2O"; tellpos := 13; eof := false |}
           {| unread := EmptyString; tellpos := 25; eof := true |}
           0 13).
  - vm_compute. reflexivity.
  - vm_compute. reflexivity.
Defined.

(** X20.  Once [forward] has returned no position, the file is at its
    end, and [forward] returns no position again and leaves the file as it
    is. *)
Theorem forward_stays_at_end (file file1 : TextFile) :
  forward file = Some (None, file1) ->
  eof file1 = true /\ forward file1 = Some (None, file1).
Proof.
  intros Hfirst.
  destruct (InChISpec.forward_loop_post
              (S (S (String.length (unread file)))) file)
    as (r & f & Hloop & Hpost); [lia|].
  unfold forward in Hfirst. rewrite Hfirst in Hloop.
  injection Hloop as <- <-. destruct Hpost as [_ Heof].
  split; [exact Heof|].
  unfold forward. simpl. rewrite Heof. reflexivity.
Qed.

Lemma forward_stays_at_end_witness :
  eof {| unread := EmptyString; tellpos := 1; eof := true |} = true
  /\ forward {| unread := EmptyString; tellpos := 1; eof := true |}
     = Some (None, {| unread := EmptyString; tellpos := 1; eof := true |}).
Proof.
  apply (forward_stays_at_end
           {| unread := "x"; tellpos := 0; eof := false |}
           {| unread := EmptyString; tellpos := 1; eof := true |}).
  vm_compute. reflexivity.
Defined.

(** *** The calls of a write *)

Section CallsMore.
Context `{PeriodicTable} `{Toolkit}.

(** When no step throws, every call is made, in order. *)
Lemma run_calls (cs : list ixa_call) :
  (run (Call <$> cs)).2 = Ok () ->
  calls_of (run (Call <$> cs)).1 = cs.
Proof.
  induction cs as [|c cs IH]; [reflexivity|].
  rewrite fmap_cons, InChISpec.run_call.
  destruct (check_for_errors (ixa_status c)) as [warnings [[]|e]];
    [|discriminate].
  destruct (run (Call <$> cs)) as [events r]. simpl in *.
  intros Hr. f_equal. unfold calls_of in *. rewrite omap_app, (IH Hr).
  assert (Hwarn : omap (fun e => match e with
                                 | Called c => Some c
                                 | _ => None
                                 end) (Warned <$> warnings) = []).
  { clear. induction warnings as [|w warnings IHw]; [reflexivity|].
    simpl. exact IHw. }
  rewrite Hwarn. reflexivity.
Qed.

(** X21.  In a frame that has as many positions as atoms, the test of
    [is_zero_dimensions] is on the distances alone: it holds exactly when
    no atom is further than [eps] from the first; the sizes zero and one
    need no case of their own. *)
Theorem is_zero_dimensions_distances (frame : Frame) :
  length (positions frame) = size frame ->
  is_zero_dimensions frame = true
  <-> forall i, (1 <= i < size frame)%nat ->
                (distance frame 0 i <= eps)%Q.
Proof.
  intros Hlen. unfold is_zero_dimensions. rewrite Hlen.
  destruct (Nat.eqb_spec (size frame) 0) as [Hzero|Hzero];
    [split; [intros _ i Hi; lia | reflexivity]|].
  destruct (Nat.eqb_spec (size frame) 1) as [Hone|Hone];
    [split; [intros _ i Hi; lia | reflexivity]|].
  simpl. rewrite forallb_forall. split.
  - intros Hall i Hi. apply Qle_bool_iff.
    specialize (Hall i). rewrite in_seq in Hall.
    unfold Qgtb in Hall. rewrite negb_involutive in Hall.
    apply Hall. lia.
  - intros Hall i Hi. apply in_seq in Hi. unfold Qgtb.
    rewrite negb_involutive. apply Qle_bool_iff, Hall. lia.
Qed.

(** X22.  A write of a frame that has an extent, when it succeeds, has made
    these calls and no other, in this order: [create_atom] for each atom
    with its position, then [create_bond] for each bond with its order. *)
Theorem write_next_calls (frame : Frame) :
  is_zero_dimensions frame = false ->
  (write_next frame).2 = Ok () ->
  calls_of (write_next frame).1
  = ((fun '(atom, pos) => create_atom atom pos)
       <$> zip (atoms frame) (positions frame))
    ++ ((fun '(bond, order) => create_bond bond order) <$> bonds frame).
Proof.
  intros Hzero. unfold write_next.
  assert (Hactions :
            write_actions frame
            = Call <$> (((fun '(atom, pos) => create_atom atom pos)
                           <$> zip (atoms frame) (positions frame))
                        ++ ((fun '(bond, order) => create_bond bond order)
                              <$> bonds frame))).
  { unfold write_actions. rewrite Hzero, app_nil_r, fmap_app.
    rewrite <- !list_fmap_compose. f_equal.
    - apply list_fmap_ext. intros _ [atom pos] _. reflexivity.
    - apply list_fmap_ext. intros _ [bond order] _. reflexivity. }
  rewrite Hactions.
  match goal with
  | |- context [run (Call <$> ?cs)] =>
      pose proof (run_calls cs) as Hcalls;
      destruct (run (Call <$> cs)) as [events [[]|x]]
  end; simpl in *; [|discriminate].
  intros _. unfold calls_of in *. rewrite omap_app, (Hcalls eq_refl).
  simpl. apply app_nil_r.
Qed.

End CallsMore.

Lemma is_zero_dimensions_distances_witness :
  @is_zero_dimensions two_neighbours = true
  <-> forall i, (1 <= i < size two_neighbours)%nat ->
                (distance two_neighbours 0 i <= eps)%Q.
Proof.
  apply (is_zero_dimensions_distances two_neighbours).
  reflexivity.
Defined.

Lemma write_next_calls_witness :
  calls_of (@write_next sample_table quiet_toolkit stretched).1
  = [@create_atom sample_table (@Atom_new sample_table "C") origin;
     @create_atom sample_table (@Atom_new sample_table "H") (1, 0, 0)%Q;
     create_bond (0, 1)%nat SINGLE].
Proof.
  apply (@write_next_calls sample_table quiet_toolkit stretched).
  - vm_compute. reflexivity.
  - vm_compute. reflexivity.
Defined.

(** *** read_next with the checks of its accessors *)

#[local] Arguments check_for_errors : simpl never.

Section ReadChecked.
Context `{PeriodicTable} `{Toolkit} `{StatusChannel}.

(** What [check_for_errors] forwards is what the status holds as
    warnings. *)
Lemma check_for_errors_forwards (status : list (IXA_STATUS * string)) :
  Forall (fun w => exists msg,
            w = Warning "InChI IXA: " ("'" +:+ msg +:+ "'"))
    (check_for_errors status).1.
Proof.
  unfold check_for_errors. simpl.
  induction status as [|[severity msg] status IH]; simpl; [constructor|].
  destruct severity; simpl; try exact IH.
  constructor; [exists msg; reflexivity | exact IH].
Qed.

(** A forwarded warning is not a warning of the reader. *)
Lemma forwarded_not_from_reader (ws : list warning) :
  Forall (fun w => exists msg,
            w = Warning "InChI IXA: " ("'" +:+ msg +:+ "'")) ws ->
  filter (fun w => from_reader w) ws = [].
Proof.
  induction 1 as [|w ws [msg ->] _ IH]; [reflexivity|].
  rewrite filter_cons. destruct (decide _) as [Hd|_]; [|exact IH].
  exfalso. exact Hd.
Qed.

Lemma run_read_access (a : ixa_accessor) (todo : list read_step)
    (history : list ixa_accessor) (frame : Frame) :
  run_read (Access a :: todo) history frame
  = let '(warnings, checked) :=
      check_for_errors (ixa_accessor_status (history ++ [a])) in
    match checked with
    | Err e => (warnings, frame, Err e)
    | Ok _ =>
        let '(given, frame, r) :=
          run_read todo (history ++ [a]) frame in
        (warnings ++ given, frame, r)
    end.
Proof. reflexivity. Qed.

(** The warnings of a run: those of the reader among the steps that were
    run, in order, and the warnings that the checks forwarded. *)
Lemma run_read_warnings (todo : list read_step)
    (history : list ixa_accessor) (frame : Frame) :
  Forall (fun w => w = aromatic_warning) (reader_warnings todo) ->
  match (run_read todo history frame).2 with
  | Ok _ =>
      filter (fun w => from_reader w) (run_read todo history frame).1.1
      = reader_warnings todo
  | Err _ =>
      filter (fun w => from_reader w) (run_read todo history frame).1.1
        `prefix_of` reader_warnings todo
  end
  /\ Forall (fun w => w = aromatic_warning
                      \/ exists msg,
                           w = Warning "InChI IXA: " ("'" +:+ msg +:+ "'"))
       (run_read todo history frame).1.1.
Proof.
  revert history frame.
  induction todo as [|[a|w|f] todo IH]; intros history frame Hreader.
  - simpl. split; [reflexivity | constructor].
  - rewrite run_read_access.
    pose proof (check_for_errors_forwards
                  (ixa_accessor_status (history ++ [a]))) as Hforwarded.
    destruct (check_for_errors (ixa_accessor_status (history ++ [a])))
      as [warnings [[]|e]]; simpl in Hforwarded.
    + specialize (IH (history ++ [a]) frame Hreader).
      destruct (run_read todo (history ++ [a]) frame)
        as [[given frame'] r]. simpl in *.
      rewrite filter_app, (forwarded_not_from_reader _ Hforwarded).
      destruct IH as [IHreader IHall]. split; [exact IHreader|].
      apply Forall_app. split; [|exact IHall].
      eapply Forall_impl; [exact Hforwarded|]. intros w Hw. right.
      exact Hw.
    + simpl. rewrite (forwarded_not_from_reader _ Hforwarded).
      split; [apply prefix_nil|].
      eapply Forall_impl; [exact Hforwarded|]. intros w' Hw. right.
      exact Hw.
  - simpl in Hreader. apply Forall_cons in Hreader as [-> Hreader].
    specialize (IH history frame Hreader). simpl.
    destruct (run_read todo history frame) as [[given frame'] r].
    simpl in *. rewrite filter_cons.
    destruct (decide _) as [_|Hd]; [|exfalso; apply Hd; exact I].
    destruct IH as [IHreader IHall]. split.
    + destruct r as [[]|e]; [f_equal; exact IHreader|].
      apply prefix_cons, IHreader.
    + constructor; [left; reflexivity | exact IHall].
  - simpl in Hreader. simpl. apply IH, Hreader.
Qed.

(** The frame of a run that goes to its end: every change was made, in
    order. *)
Lemma run_read_frame (todo : list read_step)
    (history : list ixa_accessor) (frame : Frame) :
  (run_read todo history frame).2 = Ok () ->
  (run_read todo history frame).1.2
  = foldl (fun frame f => f frame) frame (updates todo).
Proof.
  revert history frame.
  induction todo as [|[a|w|f] todo IH]; intros history frame.
  - reflexivity.
  - rewrite run_read_access.
    destruct (check_for_errors (ixa_accessor_status (history ++ [a])))
      as [warnings [[]|e]]; [|discriminate].
    specialize (IH (history ++ [a]) frame).
    destruct (run_read todo (history ++ [a]) frame)
      as [[given frame'] r]. simpl in *. exact IH.
  - simpl. specialize (IH history frame).
    destruct (run_read todo history frame) as [[given frame'] r].
    simpl in *. exact IH.
  - simpl. apply IH.
Qed.

(** What a projection of the steps gives on the steps of a loop. *)
Lemma omap_concat_imap {A B} (pick : read_step -> option B)
    (body : nat -> A -> list read_step) (picked : A -> list B)
    (l : list A) :
  (forall i a, omap pick (body i a) = picked a) ->
  omap pick (concat (imap body l)) = concat (picked <$> l).
Proof.
  revert body. induction l as [|a l IH]; intros body Hbody.
  - reflexivity.
  - simpl. rewrite omap_app, Hbody. f_equal. apply IH.
    intros i a'. apply Hbody.
Qed.

Lemma reader_warnings_read_steps (mol : IXA_MOL) :
  reader_warnings (read_steps mol)
  = (fun _ => aromatic_warning)
      <$> filter (fun b => is_aromatic b) (mol_bonds mol).
Proof.
  unfold reader_warnings, read_steps. rewrite !omap_app.
  rewrite (omap_concat_imap _ read_atom_steps (fun _ => []))
    by reflexivity.
  rewrite (omap_concat_imap _ read_bond_steps
             (fun b => if is_aromatic b then [aromatic_warning] else [])).
  2: { intros i b. unfold read_bond_steps, is_aromatic.
       destruct (bond_type b); reflexivity. }
  rewrite (omap_concat_imap _ read_stereo_steps (fun _ => [])).
  2: { intros i s. unfold read_stereo_steps.
       destruct (stereo_topology s); reflexivity. }
  simpl. rewrite !app_nil_r.
  assert (Hnone : forall A (l : list A),
            concat ((fun _ => @nil warning) <$> l) = []).
  { intros A l. induction l as [|a l IH]; [reflexivity | exact IH]. }
  rewrite !Hnone. simpl. rewrite app_nil_r.
  induction (mol_bonds mol) as [|b l IH]; [reflexivity|].
  rewrite filter_cons, fmap_cons. cbn [concat]. rewrite IH.
  destruct (is_aromatic b); destruct (decide _) as [Hd|Hd];
    simpl in Hd; try contradiction; try (exfalso; apply Hd; exact I);
    reflexivity.
Qed.

Lemma updates_read_steps (mol : IXA_MOL) :
  updates (read_steps mol)
  = ((fun a => add_atom (get_atom a) (atom_position a)) <$> mol_atoms mol)
    ++ ((fun b frame => (read_bond b (frame, [])).1) <$> mol_bonds mol)
    ++ concat ((fun s => match stereo_topology s with
                         | IXA_STEREO_TOPOLOGY_INVALID => []
                         | _ => [read_stereo s]
                         end) <$> mol_stereos mol).
Proof.
  unfold updates, read_steps. rewrite !omap_app.
  rewrite (omap_concat_imap _ read_atom_steps
             (fun a => [add_atom (get_atom a) (atom_position a)]))
    by reflexivity.
  rewrite (omap_concat_imap _ read_bond_steps
             (fun b => [fun frame => (read_bond b (frame, [])).1])).
  2: { intros i b. unfold read_bond_steps, read_bond.
       destruct (bond_type b); reflexivity. }
  rewrite (omap_concat_imap _ read_stereo_steps
             (fun s => match stereo_topology s with
                       | IXA_STEREO_TOPOLOGY_INVALID => []
                       | _ => [read_stereo s]
                       end)).
  2: { intros i s. unfold read_stereo_steps.
       destruct (stereo_topology s); reflexivity. }
  simpl. rewrite !app_nil_r.
  assert (Hone : forall A B (f : A -> B) (l : list A),
            concat ((fun a => [f a]) <$> l) = f <$> l).
  { intros A B f l. induction l as [|a l IH]; [reflexivity|].
    rewrite !fmap_cons. cbn [concat]. rewrite IH. reflexivity. }
  rewrite !Hone. reflexivity.
Qed.

(** The frame of [read_molecule] is the frame after the changes of the
    three loops. *)
Lemma read_molecule_updates (mol : IXA_MOL) (frame : Frame) :
  foldl (fun frame f => f frame) frame (updates (read_steps mol))
  = (read_molecule mol frame).1.
Proof.
  rewrite updates_read_steps, !foldl_app, !foldl_fmap.
  unfold read_molecule, read_atoms.
  assert (Hbonds : forall l fr ws,
            (foldl (fun st b => read_bond b st) (fr, ws) l).1
            = foldl (fun frame b => (read_bond b (frame, [])).1) fr l).
  { induction l as [|b l IH]; intros fr ws; [reflexivity|].
    lazymatch goal with
    | |- context [foldl ?f ?a (b :: l)] =>
        change (foldl f a (b :: l)) with (foldl f (f a b) l)
    end. cbv beta.
    assert (Hstep : exists ws',
              read_bond b (fr, ws) = ((read_bond b (fr, [])).1, ws')).
    { unfold read_bond. destruct (bond_type b); simpl; eauto. }
    destruct Hstep as [ws' ->]. rewrite IH. reflexivity. }
  assert (Hstereos : forall l fr,
            foldl (fun frame f => f frame) fr
              (concat ((fun s => match stereo_topology s with
                                 | IXA_STEREO_TOPOLOGY_INVALID => []
                                 | _ => [read_stereo s]
                                 end) <$> l))
            = foldl (fun frame s => read_stereo s frame) fr l).
  { induction l as [|s l IH]; intros fr; [reflexivity|].
    rewrite fmap_cons. cbn [concat]. rewrite foldl_app, IH.
    cbn [foldl]. f_equal.
    destruct (stereo_topology s) eqn:Htopology; try reflexivity.
    unfold read_stereo. rewrite Htopology. reflexivity. }
  rewrite Hstereos.
  specialize (Hbonds (mol_bonds mol)
                (foldl (fun frame a =>
                          add_atom (get_atom a) (atom_position a) frame)
                   frame (mol_atoms mol)) []).
  destruct (foldl (fun st b => read_bond b st) _ (mol_bonds mol))
    as [frame' warnings]. simpl in *. rewrite Hbonds. reflexivity.
Qed.

(** X9.  The warnings of [read_next]: every warning it gives is either
    the warning of the reader for an aromatic bond or a warning of a
    status of the toolkit that a check forwarded; when the read completes,
    there is exactly one warning of the reader for each aromatic bond of
    the molecule, in the order of the bonds, and when a check throws,
    there are those of the bonds read before. *)
Theorem read_next_warnings (file_ : TextFile) (frame : Frame) :
  match (read_next file_ frame).2 with
  | Ok _ =>
      filter (fun w => from_reader w) (read_next file_ frame).1.1
      = (fun _ => aromatic_warning)
          <$> filter (fun b => is_aromatic b)
                (mol_bonds (ixa_read_inchi (readline file_).1).2)
  | Err _ =>
      filter (fun w => from_reader w) (read_next file_ frame).1.1
        `prefix_of`
        (fun _ => aromatic_warning)
          <$> filter (fun b => is_aromatic b)
                (mol_bonds (ixa_read_inchi (readline file_).1).2)
  end
  /\ Forall (fun w => w = aromatic_warning
                      \/ exists msg,
                           w = Warning "InChI IXA: " ("'" +:+ msg +:+ "'"))
       (read_next file_ frame).1.1.
Proof.
  unfold read_next.
  destruct (readline file_) as [inchi file']. cbn [fst snd].
  pose proof (check_for_errors_forwards
                (ixa_accessor_status [IXAMolWrapper_new])) as Hcreated.
  destruct (check_for_errors (ixa_accessor_status [IXAMolWrapper_new]))
    as [created [[]|e]]; cbn [fst snd] in *.
  2: { rewrite (forwarded_not_from_reader _ Hcreated).
       split; [apply prefix_nil|].
       eapply Forall_impl; [exact Hcreated|]. intros w Hw. right.
       exact Hw. }
  destruct (ixa_read_inchi inchi) as [status mol]. cbn [fst snd].
  pose proof (check_for_errors_forwards status) as Hparsed.
  destruct (check_for_errors status) as [parsed [[]|e]];
    cbn [fst snd] in *.
  2: { rewrite filter_app, (forwarded_not_from_reader _ Hcreated),
         (forwarded_not_from_reader _ Hparsed).
       split; [apply prefix_nil|].
       apply Forall_app. split;
         (eapply Forall_impl; [eassumption|]); intros w Hw; right;
         exact Hw. }
  pose proof (run_read_warnings (read_steps mol) [IXAMolWrapper_new]
                frame) as Hrun.
  rewrite reader_warnings_read_steps in Hrun.
  destruct Hrun as [Hreader Hall].
  { apply Forall_fmap. apply Forall_forall. intros b _. reflexivity. }
  destruct (run_read (read_steps mol) [IXAMolWrapper_new] frame)
    as [[given frame'] r]. cbn [fst snd] in *.
  rewrite !filter_app, (forwarded_not_from_reader _ Hcreated),
    (forwarded_not_from_reader _ Hparsed). cbn [app].
  split; [exact Hreader|].
  apply Forall_app. split; [|apply Forall_app; split; [|exact Hall]];
    (eapply Forall_impl; [eassumption|]); intros w Hw; right; exact Hw.
Qed.

(** X23.  A read that completes has read one line and leaves the frame
    that the three loops give without the checks of the accessors: the
    checks decide whether the read completes and which warnings are
    forwarded, and nothing of what is stored. *)
Theorem read_next_completes (file_ : TextFile) (frame : Frame) :
  (read_next file_ frame).2 = Ok () ->
  (read_next file_ frame).1.2
  = ((read_molecule (ixa_read_inchi (readline file_).1).2 frame).1,
     (readline file_).2).
Proof.
  unfold read_next.
  destruct (readline file_) as [inchi file']. cbn [fst snd].
  destruct (check_for_errors (ixa_accessor_status [IXAMolWrapper_new]))
    as [created [[]|e]]; [|discriminate].
  destruct (ixa_read_inchi inchi) as [status mol]. cbn [fst snd].
  destruct (check_for_errors status) as [parsed [[]|e]]; [|discriminate].
  pose proof (run_read_frame (read_steps mol) [IXAMolWrapper_new] frame)
    as Hframe.
  destruct (run_read (read_steps mol) [IXAMolWrapper_new] frame)
    as [[given frame'] r]. cbn [fst snd] in *.
  intros Hr. rewrite (Hframe Hr), read_molecule_updates. reflexivity.
Qed.

End ReadChecked.

Lemma read_next_completes_witness :
  (@read_next sample_table aromatic_toolkit noisy_channel one_record
     no_atoms).1.2
  = ((@read_molecule sample_table
        (@ixa_read_inchi aromatic_toolkit (readline one_record).1).2
        no_atoms).1,
     (readline one_record).2).
Proof.
  apply (@read_next_completes sample_table aromatic_toolkit noisy_channel
           one_record no_atoms).
  vm_compute. reflexivity.
Defined.

(** A read with a warning of the toolkit for the line, one for the type
    of the bond, and the warning of the reader. *)
Example read_next_noisy :
  (@read_next sample_table aromatic_toolkit noisy_channel one_record
     no_atoms).1.1
  = [Warning "InChI IXA: " "'charges were rearranged'";
     Warning "InChI IXA: " "'unusual bond'";
     aromatic_warning].
Proof. vm_compute. reflexivity. Qed.

(** A read that a check stops after the atoms: the atoms are in the
    frame, and no bond. *)
Example read_next_failing :
  (@read_next sample_table aromatic_toolkit failing_channel one_record
     no_atoms).2
  = Err (FormatError
           ("problem in InChI IXA: '" +:+ "no bond table" +:+ newline
            +:+ "'"))
  /\ size (@read_next sample_table aromatic_toolkit failing_channel
             one_record no_atoms).1.2.1 = 2%nat
  /\ bonds (@read_next sample_table aromatic_toolkit failing_channel
              one_record no_atoms).1.2.1 = [].
Proof. vm_compute. repeat split; reflexivity. Qed.

End InChIMore.

